(** * Pinball table: the physics core of [pinball_game.py]

    A shallow embedding of the simulation part of the game (vector
    arithmetic, flipper actuation, flipper and bumper collision, ball
    integration, wall handling, the per-frame update and the launch
    request), followed by the properties established about it.

    Modelling conventions.
    - Python floats are read as real numbers: every arithmetic operation is
      exact, [math.radians d] is [d * PI / 180], [math.cos]/[math.sin] are
      the real cosine and sine.  Python ints that only ever take part in
      float arithmetic are real constants as well; the score and the bumper
      values stay integers.
    - [pygame.math.Vector2] is a pair of reals.  [normalize] and [reflect]
      follow pygame: [normalize] raises [ValueError] on a vector of length
      zero, [reflect] raises [ValueError] when the squared length of the
      normal is below the vector epsilon (1e-6) and otherwise renormalises
      the normal before reflecting.
    - An exception leaves the mutated objects as they are at the raise
      point, so an outcome carries the game state in both cases.
    - The keyboard snapshot, the event queue, the clock's [dt] and the value
      drawn by [random.uniform] are inputs of the functions that use them.
    - Fields and methods used for drawing only (colours, [draw], the HUD,
      the window, the font) are left out.  A ball carries the index of its
      construction, standing for Python object identity. *)

From Stdlib Require Import Reals Lra Lia ZArith List Bool.
Import ListNotations.
Local Open Scope R_scope.

(** ** Comparisons of reals as booleans *)

Definition Rltb (a b : R) : bool := if Rlt_dec a b then true else false.
Definition Rleb (a b : R) : bool := if Rle_dec a b then true else false.
Definition Rgtb (a b : R) : bool := Rltb b a.

(** ** Constants *)

Definition radians (deg : R) : R := deg * PI / 180.

Definition WIDTH : Z := 800.
Definition HEIGHT : Z := 1000.
Definition FPS : Z := 60.
Definition GRAVITY : R := 900.
Definition BALL_RADIUS : R := 12.
Definition FLIPPER_LENGTH : R := 110.
Definition FLIPPER_WIDTH : R := 18.
Definition FLIPPER_ANGLE : R := radians 25.
Definition FLIPPER_REST_ANGLE : R := radians (-22).
Definition FLIPPER_SPEED : R := radians 400.
Definition BUMPER_RADIUS : R := 28.
Definition BUMPER_FORCE : R := 650.
Definition LAUNCH_FORCE : R := 720.

(** [math.isclose a b] with the default [rel_tol] of 1e-9. *)
Definition isclose (a b abs_tol : R) : bool :=
  if Req_dec_T a b then true
  else
    let diff := Rabs (b - a) in
    Rleb diff (Rabs (1e-9 * b)) || Rleb diff (Rabs (1e-9 * a))
    || Rleb diff abs_tol.

(** ** pygame.math.Vector2 *)

Module Vector2.

Record t : Type := mk { x : R; y : R }.

Definition add (a b : t) : t := mk (x a + x b) (y a + y b).
Definition sub (a b : t) : t := mk (x a - x b) (y a - y b).
Definition scale (a : t) (k : R) : t := mk (x a * k) (y a * k).
Definition dot (a b : t) : R := x a * x b + y a * y b.
Definition length (a : t) : R := sqrt (dot a a).

Definition epsilon : R := 1e-6.

(** [None] stands for the [ValueError] pygame raises. *)
Definition normalize (a : t) : option t :=
  if Req_dec_T (length a) 0 then None
  else Some (mk (x a / length a) (y a / length a)).

Definition reflect (v normal : t) : option t :=
  let norm_length := dot normal normal in
  if Rlt_dec norm_length epsilon then None
  else
    let n :=
      if Req_dec_T norm_length 1 then normal
      else mk (x normal / sqrt norm_length) (y normal / sqrt norm_length) in
    let dot_product := dot v n in
    Some (mk (x v - 2 * x n * dot_product) (y v - 2 * y n * dot_product)).

End Vector2.

(** ** Ball *)

Module Ball.

Record t : Type := mk
  { ident : nat;
    position : Vector2.t;
    velocity : Vector2.t }.

(** The three [if] statements of [_handle_walls], in their order. *)
Definition wall_left (self : t) : t :=
  let p := position self in
  let v := velocity self in
  if Rltb (Vector2.x p - BALL_RADIUS) 20 then
    mk (ident self)
       (Vector2.mk (20 + BALL_RADIUS) (Vector2.y p))
       (Vector2.mk (Rabs (Vector2.x v) * 0.92) (Vector2.y v))
  else self.

Definition wall_right (self : t) : t :=
  let p := position self in
  let v := velocity self in
  if Rgtb (Vector2.x p + BALL_RADIUS) (IZR WIDTH - 20) then
    mk (ident self)
       (Vector2.mk (IZR WIDTH - 20 - BALL_RADIUS) (Vector2.y p))
       (Vector2.mk (- Rabs (Vector2.x v) * 0.92) (Vector2.y v))
  else self.

Definition wall_top (self : t) : t :=
  let p := position self in
  let v := velocity self in
  if Rltb (Vector2.y p - BALL_RADIUS) 20 then
    mk (ident self)
       (Vector2.mk (Vector2.x p) (20 + BALL_RADIUS))
       (Vector2.mk (Vector2.x v) (Rabs (Vector2.y v) * 0.92))
  else self.

Definition _handle_walls (self : t) : t :=
  wall_top (wall_right (wall_left self)).

(** The two assignments of [update] that precede the wall handling. *)
Definition integrate (self : t) (dt : R) : t :=
  let v := Vector2.mk (Vector2.x (velocity self))
                      (Vector2.y (velocity self) + GRAVITY * dt) in
  let p := Vector2.add (position self) (Vector2.scale v dt) in
  mk (ident self) p v.

Definition update (self : t) (dt : R) : t :=
  _handle_walls (integrate self dt).

End Ball.

(** ** Flipper *)

Module Flipper.

Record t : Type := mk
  { pivot : Vector2.t;
    is_left : bool;
    angle : R;
    activated : bool }.

Definition with_angle (a : R) (self : t) : t :=
  mk (pivot self) (is_left self) a (activated self).

Definition target_of (self : t) : R :=
  if activated self then FLIPPER_ANGLE else FLIPPER_REST_ANGLE.

Definition update (self : t) (dt : R) : t :=
  let target_angle := target_of self in
  let direction : R := if Rgtb target_angle (angle self) then 1 else -1 in
  if isclose (angle self) target_angle 1e-3 then with_angle target_angle self
  else
    let a := angle self + direction * FLIPPER_SPEED * dt in
    if (Rgtb direction 0 && Rgtb a target_angle)
       || (Rltb direction 0 && Rltb a target_angle)
    then with_angle target_angle self
    else with_angle a self.

Definition toggle (self : t) (active : bool) : t :=
  mk (pivot self) (is_left self) (angle self) active.

Definition get_tip (self : t) : Vector2.t :=
  let direction := Vector2.mk (cos (angle self)) (sin (angle self)) in
  let direction :=
    if negb (is_left self)
    then Vector2.mk (Vector2.x direction) (Vector2.y direction * -1)
    else direction in
  Vector2.add (pivot self) (Vector2.scale direction FLIPPER_LENGTH).

(** The point of the pivot-to-tip segment nearest to the ball; [None] when
    normalising the segment raises. *)
Definition closest_point (self : t) (ball : Ball.t) : option Vector2.t :=
  let tip := get_tip self in
  let nearest := Vector2.sub (Ball.position ball) (pivot self) in
  match Vector2.normalize (Vector2.sub tip (pivot self)) with
  | None => None
  | Some direction =>
      let projection_length :=
        Rmax 0 (Rmin FLIPPER_LENGTH (Vector2.dot nearest direction)) in
      Some (Vector2.add (pivot self)
                        (Vector2.scale direction projection_length))
  end.

(** The body of the [if] of [collide], entered on contact. *)
Definition respond (self : t) (ball : Ball.t) (closest : Vector2.t)
  : option Ball.t :=
  match Vector2.normalize (Vector2.sub (Ball.position ball) closest) with
  | None => None
  | Some normal =>
      match Vector2.reflect (Ball.velocity ball) normal with
      | None => None
      | Some r =>
          let v := Vector2.add r (Vector2.scale normal 120) in
          let p := Vector2.add (Ball.position ball) (Vector2.scale normal 4) in
          let v := Vector2.mk (Vector2.x v)
                     (Vector2.y v - (if is_left self then 60 else 0)) in
          Some (Ball.mk (Ball.ident ball) p v)
      end
  end.

(** [collide] returns its boolean together with the ball as it leaves it;
    [None] stands for a [ValueError] raised before the ball is touched. *)
Definition collide (self : t) (ball : Ball.t) : option (bool * Ball.t) :=
  match closest_point self ball with
  | None => None
  | Some closest =>
      if Rleb (Vector2.length (Vector2.sub (Ball.position ball) closest))
              (BALL_RADIUS + FLIPPER_WIDTH / 2)
      then
        match respond self ball closest with
        | None => None
        | Some ball' => Some (true, ball')
        end
      else Some (false, ball)
  end.

End Flipper.

(** ** Bumper *)

Module Bumper.

Record t : Type := mk
  { position : Vector2.t;
    value : Z }.

Definition collide (self : t) (ball : Ball.t) : option (bool * Ball.t) :=
  let displacement := Vector2.sub (Ball.position ball) (position self) in
  let distance := Vector2.length displacement in
  if Rleb distance (BUMPER_RADIUS + BALL_RADIUS) then
    match Vector2.normalize displacement with
    | None => None
    | Some normal =>
        let impulse := Vector2.scale normal BUMPER_FORCE in
        match Vector2.reflect (Ball.velocity ball) normal with
        | None => None
        | Some r =>
            let v := Vector2.add r (Vector2.scale impulse 0.4) in
            let p := Vector2.add (position self)
                       (Vector2.scale normal
                          (BUMPER_RADIUS + BALL_RADIUS + 2)) in
            Some (true, Ball.mk (Ball.ident ball) p v)
        end
    end
  else Some (false, ball).

End Bumper.

(** ** Game *)

Module Game.

Record t : Type := mk
  { left_flipper : Flipper.t;
    right_flipper : Flipper.t;
    bumpers : list Bumper.t;
    ball : option Ball.t;
    score : Z;
    constructed : nat  (* Ball objects constructed so far *) }.

Definition with_flippers (l r : Flipper.t) (g : t) : t :=
  mk l r (bumpers g) (ball g) (score g) (constructed g).
Definition with_ball (b : option Ball.t) (g : t) : t :=
  mk (left_flipper g) (right_flipper g) (bumpers g) b (score g)
     (constructed g).
Definition with_score (s : Z) (g : t) : t :=
  mk (left_flipper g) (right_flipper g) (bumpers g) (ball g) s
     (constructed g).

(** *** Outcomes: normal return or a raised exception, each with the state *)

Inductive exn : Type := ValueError | AttributeError.

Inductive res (A : Type) : Type :=
| Ok (a : A) (g : t)
| Raise (e : exn) (g : t).
Arguments Ok {A} a g.
Arguments Raise {A} e g.

Definition M (A : Type) : Type := t -> res A.

Definition ret {A} (a : A) : M A := fun g => Ok a g.
Definition bind {A B} (m : M A) (f : A -> M B) : M B :=
  fun g => match m g with
           | Ok a g' => f a g'
           | Raise e g' => Raise e g'
           end.

Notation "x <- m ;; k" := (bind m (fun x => k))
  (at level 61, m at next level, right associativity).
Notation "m ;; k" := (bind m (fun _ => k))
  (at level 61, right associativity).

Definition state_of {A} (r : res A) : t :=
  match r with Ok _ g => g | Raise _ g => g end.

(** A [for] loop over a tuple or list whose body returns nothing. *)
Fixpoint for_each {A} (l : list A) (body : A -> M unit) : M unit :=
  match l with
  | [] => ret tt
  | a :: l' => body a ;; for_each l' body
  end.

(** Calling [obstacle.collide(self.ball)]: the ball object is mutated in
    place; on [None] the attribute access inside [collide] fails. *)
Definition call_collide (collide : Ball.t -> option (bool * Ball.t)) : M bool :=
  fun g =>
    match ball g with
    | None => Raise AttributeError g
    | Some b =>
        match collide b with
        | None => Raise ValueError g
        | Some (hit, b') => Ok hit (with_ball (Some b') g)
        end
    end.

Definition add_score (v : Z) : M unit :=
  fun g => Ok tt (with_score (score g + v)%Z g).

(** *** Table set-up *)

Definition _create_bumpers : list Bumper.t :=
  flat_map
    (fun y => map (fun x => Bumper.mk (Vector2.mk x y) 150)
                  [220; 320; 480; 580])
    [260; 360; 460]
  ++ [Bumper.mk (Vector2.mk (IZR (WIDTH / 2)) 560) 250].

Definition init : t :=
  mk (Flipper.mk (Vector2.mk 270 820) true FLIPPER_REST_ANGLE false)
     (Flipper.mk (Vector2.mk 530 820) false FLIPPER_REST_ANGLE false)
     _create_bumpers
     None
     0%Z
     0%nat.

(** *** Operations *)

(** [u] is the value [random.uniform(-120, 120)] returns. *)
Definition launch_ball (u : R) : M unit :=
  fun g =>
    let spawn := Vector2.mk (IZR WIDTH - 70) (IZR HEIGHT - 80) in
    let velocity := Vector2.mk u (- LAUNCH_FORCE) in
    Ok tt (mk (left_flipper g) (right_flipper g) (bumpers g)
              (Some (Ball.mk (constructed g) spawn velocity))
              (score g)
              (S (constructed g))).

Definition flipper_pass : M unit :=
  fun g =>
    for_each [left_flipper g; right_flipper g]
      (fun flipper => call_collide (Flipper.collide flipper) ;; ret tt) g.

Definition bumper_step (bumper : Bumper.t) : M unit :=
  hit <- call_collide (Bumper.collide bumper) ;;
  if hit then add_score (Bumper.value bumper) else ret tt.

Definition bumper_pass : M unit :=
  fun g => for_each (bumpers g) bumper_step g.

Definition _handle_collisions : M unit :=
  fun g =>
    match ball g with
    | None => Ok tt g
    | Some _ => (flipper_pass ;; bumper_pass) g
    end.

(** The drain test that closes [update]. *)
Definition drain : M unit :=
  fun g =>
    match ball g with
    | None => Raise AttributeError g
    | Some b =>
        if Rgtb (Vector2.y (Ball.position b) - BALL_RADIUS) (IZR HEIGHT + 40)
        then Ok tt (with_ball None g)
        else Ok tt g
    end.

Inductive Key : Type :=
  K_LEFT | K_RIGHT | K_a | K_d | K_ESCAPE | K_q | K_SPACE | K_other.

(** [keys] is the snapshot [pygame.key.get_pressed()] returns. *)
Definition update (keys : Key -> bool) (dt : R) : M unit :=
  fun g =>
    let l := Flipper.toggle (left_flipper g) (keys K_LEFT || keys K_a) in
    let r := Flipper.toggle (right_flipper g) (keys K_RIGHT || keys K_d) in
    let l := Flipper.update l dt in
    let r := Flipper.update r dt in
    let g := with_flippers l r g in
    match ball g with
    | None => Ok tt g
    | Some b =>
        (_handle_collisions ;; drain)
          (with_ball (Some (Ball.update b dt)) g)
    end.

(** *** The event branch of [run] *)

Inductive Event : Type :=
| QUIT
| KEYDOWN (key : Key)
| OTHER.

Definition is_quit_key (key : Key) : bool :=
  match key with K_ESCAPE | K_q => true | _ => false end.
Definition is_space (key : Key) : bool :=
  match key with K_SPACE => true | _ => false end.
Definition ball_active (g : t) : bool :=
  match ball g with Some _ => true | None => false end.

(** The body of [for event in pygame.event.get()]: takes and returns the
    [running] flag; [u] is the random draw a launch would use. *)
Definition handle_event (u : R) (event : Event) (running : bool) : M bool :=
  match event with
  | QUIT => ret false
  | KEYDOWN key =>
      let running := if is_quit_key key then false else running in
      fun g =>
        if is_space key && negb (ball_active g)
        then (launch_ball u ;; ret running) g
        else ret running g
  | OTHER => ret running
  end.

Fixpoint handle_events (events : list (Event * R)) (running : bool) : M bool :=
  match events with
  | [] => ret running
  | (event, u) :: rest =>
      running' <- handle_event u event running ;;
      handle_events rest running'
  end.

(** One iteration of the [while] loop of [run], without the drawing. *)
Definition frame (dt : R) (events : list (Event * R)) (keys : Key -> bool)
                 (running : bool) : M bool :=
  running' <- handle_events events running ;;
  update keys dt ;;
  ret running'.

End Game.

(** ** Vocabulary of the statements *)

(** The closed interval between the rest angle and the activated angle. *)
Definition in_range (a : R) : Prop :=
  FLIPPER_REST_ANGLE <= a <= FLIPPER_ANGLE.

(** One tick of a flipper as [Game.update] drives it: the input sets the
    [activated] flag, then the angle is updated. *)
Definition actuate (f : Flipper.t) (tick : bool * R) : Flipper.t :=
  Flipper.update (Flipper.toggle f (fst tick)) (snd tick).

Definition actuate_all (ticks : list (bool * R)) (f : Flipper.t) : Flipper.t :=
  fold_left actuate ticks f.

(** The walls [_handle_walls] tests, the condition under which each one is
    penetrated, the coordinate it acts on and the value it clamps to. *)
Inductive Wall : Type := LeftWall | RightWall | TopWall.

Definition penetrates (w : Wall) (b : Ball.t) : Prop :=
  match w with
  | LeftWall => Vector2.x (Ball.position b) - BALL_RADIUS < 20
  | RightWall => Vector2.x (Ball.position b) + BALL_RADIUS > IZR WIDTH - 20
  | TopWall => Vector2.y (Ball.position b) - BALL_RADIUS < 20
  end.

Definition along (w : Wall) (v : Vector2.t) : R :=
  match w with
  | LeftWall | RightWall => Vector2.x v
  | TopWall => Vector2.y v
  end.

Definition clamped_at (w : Wall) : R :=
  match w with
  | LeftWall => 20 + BALL_RADIUS
  | RightWall => IZR WIDTH - 20 - BALL_RADIUS
  | TopWall => 20 + BALL_RADIUS
  end.

(** The factor the wall branches multiply the reflected component by. *)
Definition restitution : R := 0.92.

Definition speed_before (w : Wall) (b : Ball.t) : R :=
  Rabs (along w (Ball.velocity b)).
Definition speed_after (w : Wall) (b : Ball.t) : R :=
  Rabs (along w (Ball.velocity (Ball._handle_walls b))).

(** The energy bound in the wording of the specification: the speed after
    the bounce is at most the restitution times the speed before, and the
    two are equal only for a zero velocity component. *)
Definition energy_bound_as_worded (w : Wall) (b : Ball.t) : Prop :=
  speed_after w b <= restitution * speed_before w b
  /\ (speed_after w b = restitution * speed_before w b ->
      along w (Ball.velocity b) = 0).

Definition no_wall_crossed (b : Ball.t) : Prop :=
  ~ penetrates LeftWall b /\ ~ penetrates RightWall b /\ ~ penetrates TopWall b.



(** Centre-to-centre distance of a ball and a bumper. *)
Definition distance_to (bumper : Bumper.t) (b : Ball.t) : R :=
  Vector2.length (Vector2.sub (Ball.position b) (Bumper.position bumper)).


(** The mirror image of [v] in the line orthogonal to the unit vector [n]. *)
Definition mirror (v n : Vector2.t) : Vector2.t :=
  Vector2.sub v (Vector2.scale n (2 * Vector2.dot v n)).

(** The unit vector from the pivot of a flipper towards its tip. *)
Definition heading (f : Flipper.t) : Vector2.t :=
  Vector2.mk (cos (Flipper.angle f))
             (if Flipper.is_left f then sin (Flipper.angle f)
              else - sin (Flipper.angle f)).

Definition contact_reported (r : option (bool * Ball.t)) : Prop :=
  exists ball', r = Some (true, ball').

(** How far along the flipper the ball projects, cut to the segment, the
    point of the segment found there, and the ball's distance to it. *)
Definition projection (f : Flipper.t) (b : Ball.t) : R :=
  Rmax 0 (Rmin FLIPPER_LENGTH
            (Vector2.dot (Vector2.sub (Ball.position b) (Flipper.pivot f))
                         (heading f))).

Definition nearest_on_segment (f : Flipper.t) (b : Ball.t) : Vector2.t :=
  Vector2.add (Flipper.pivot f) (Vector2.scale (heading f) (projection f b)).

Definition gap (f : Flipper.t) (b : Ball.t) : R :=
  Vector2.length (Vector2.sub (Ball.position b) (nearest_on_segment f b)).

(** The ball as [Flipper.collide] leaves it on contact along [normal]. *)
Definition kicked (f : Flipper.t) (b : Ball.t) (normal : Vector2.t) : Ball.t :=
  Ball.mk (Ball.ident b)
    (Vector2.add (Ball.position b) (Vector2.scale normal 4))
    (Vector2.add
       (Vector2.add (mirror (Ball.velocity b) normal)
                    (Vector2.scale normal 120))
       (Vector2.mk 0 (- (if Flipper.is_left f then 60 else 0)))).

(** One iteration of the loop of [run]: the clock's [dt], the queued events
    (each with the random draw a launch would use) and the keyboard
    snapshot. *)
Record Frame : Type := mkFrame
  { frame_dt : R;
    frame_events : list (Game.Event * R);
    frame_keys : Game.Key -> bool }.

(** [while running: ...] over the given frames. *)
Fixpoint play (frames : list Frame) (running : bool) : Game.M bool :=
  match frames with
  | [] => Game.ret running
  | fr :: rest =>
      if running then
        Game.bind
          (Game.frame (frame_dt fr) (frame_events fr) (frame_keys fr) running)
          (play rest)
      else Game.ret running
  end.

(** Inputs the collaborators can supply: elapsed time is not negative and a
    draw of [random.uniform(-120, 120)] lies in its interval. *)
Definition admissible (frames : list Frame) : Prop :=
  Forall
    (fun fr =>
       0 <= frame_dt fr
       /\ Forall (fun eu => -120 <= snd eu <= 120) (frame_events fr))
    frames.

(** The safety property in the wording of the specification: no session
    ever has a normalisation raise. *)
Definition normalizations_never_raise : Prop :=
  forall frames g,
    admissible frames ->
    play frames true Game.init <> Game.Raise Game.ValueError g.

Definition no_keys : Game.Key -> bool := fun _ => false.
Definition right_held : Game.Key -> bool :=
  fun key => match key with Game.K_RIGHT => true | _ => false end.

(** Elapsed times as [clock.tick(FPS)] reports them: a whole number of
    milliseconds, not below the 16 ms the frame cap waits for, divided by
    1000. *)
Definition clocked (frames : list Frame) : Prop :=
  Forall
    (fun fr => exists k : Z, (16 <= k)%Z /\ frame_dt fr = IZR k / 1000)
    frames.

(** A session on a machine that manages eight frames a second.  The ball
    is launched with a draw of -75 and flies for nine frames of 125 ms and
    one of 100 ms with no key held; the right flipper key is down for one
    frame of 55 ms, in which the flipper reaches angle 0 and the ball
    bounces off it; the key is up again for eight frames of 125 ms and one
    of 90 ms; and it is down once more for a last frame of 55 ms.  All
    velocities and all horizontal positions of the run are multiples of
    1/8, and the run evaluated in IEEE doubles ends, like the one over the
    reals, with the flipper angle 0.0 and the ball at (548.125, 820.0). *)
Definition crash_frames : list Frame :=
  [ mkFrame (125 / 1000) [(Game.KEYDOWN Game.K_SPACE, -75)] no_keys;
    mkFrame (125 / 1000) [] no_keys;
    mkFrame (125 / 1000) [] no_keys;
    mkFrame (125 / 1000) [] no_keys;
    mkFrame (125 / 1000) [] no_keys;
    mkFrame (125 / 1000) [] no_keys;
    mkFrame (125 / 1000) [] no_keys;
    mkFrame (125 / 1000) [] no_keys;
    mkFrame (125 / 1000) [] no_keys;
    mkFrame (100 / 1000) [] no_keys;
    mkFrame (55 / 1000) [] right_held;
    mkFrame (125 / 1000) [] no_keys;
    mkFrame (125 / 1000) [] no_keys;
    mkFrame (125 / 1000) [] no_keys;
    mkFrame (125 / 1000) [] no_keys;
    mkFrame (125 / 1000) [] no_keys;
    mkFrame (125 / 1000) [] no_keys;
    mkFrame (125 / 1000) [] no_keys;
    mkFrame (125 / 1000) [] no_keys;
    mkFrame (90 / 1000) [] no_keys;
    mkFrame (55 / 1000) [] right_held ].

(** The game as the frame of the bounce leaves it: the right flipper at
    angle 0 with its key down, the first ball in state [b]. *)
Definition swung (b : Ball.t) : Game.t :=
  Game.mk (Game.left_flipper Game.init)
          (Flipper.mk (Vector2.mk 530 820) false 0 true)
          Game._create_bumpers (Some b) 0%Z 1%nat.

(** States in which one frame with no key held is free flight: no wall, no
    flipper and no bumper is touched and the ball does not drain. *)
Definition clear (b : Ball.t) : Prop :=
  let p := Ball.position b in
  no_wall_crossed b
  /\ 600 < Vector2.y p
  /\ 402 <= Vector2.x p
  /\ (661 < Vector2.x p \/ Vector2.y p < 799)
  /\ Vector2.y p - BALL_RADIUS <= IZR HEIGHT + 40.

(** The game between launch and drain with both flippers at rest and no
    point scored: the first ball constructed, in state [b]. *)
Definition in_flight (b : Ball.t) : Game.t :=
  Game.mk (Game.left_flipper Game.init) (Game.right_flipper Game.init)
          Game._create_bumpers (Some b) 0%Z 1%nat.

Definition flying (x y u v : R) : Ball.t :=
  Ball.mk 0 (Vector2.mk x y) (Vector2.mk u v).

(** The score does not go down and the bumpers stay the same. *)
Definition grows (g g' : Game.t) : Prop :=
  (Game.score g <= Game.score g')%Z /\ Game.bumpers g' = Game.bumpers g.

(** No bumper of the table has a negative value. *)
Definition sound_table (g : Game.t) : Prop :=
  Forall (fun bumper => (0 <= Bumper.value bumper)%Z) (Game.bumpers g).

Definition monotone {A} (m : Game.M A) : Prop :=
  forall g, sound_table g -> grows g (Game.state_of (m g)).



(** The point of the pivot-to-tip segment at the fraction [s] of the way. *)
Definition on_segment (f : Flipper.t) (s : R) : Vector2.t :=
  Vector2.add (Flipper.pivot f)
    (Vector2.scale (Vector2.sub (Flipper.get_tip f) (Flipper.pivot f)) s).

(** A quarter turn of a vector, for the component along a surface. *)
Definition perp (n : Vector2.t) : Vector2.t :=
  Vector2.mk (- Vector2.y n) (Vector2.x n).

(** Every bumper is more than two contact ranges plus the clearance away
    from the bumpers that follow it in the list. *)
Fixpoint spread (l : list Bumper.t) : Prop :=
  match l with
  | [] => True
  | a :: rest =>
      Forall (fun c =>
                2 * (BUMPER_RADIUS + BALL_RADIUS) + 2
                < Vector2.length
                    (Vector2.sub (Bumper.position c) (Bumper.position a)))
             rest
      /\ spread rest
  end.

(** What a session never changes about the table, and the range the
    flippers keep. *)
Definition table_kept (g : Game.t) : Prop :=
  Game.bumpers g = Game._create_bumpers
  /\ Flipper.pivot (Game.left_flipper g) = Vector2.mk 270 820
  /\ Flipper.is_left (Game.left_flipper g) = true
  /\ Flipper.pivot (Game.right_flipper g) = Vector2.mk 530 820
  /\ Flipper.is_left (Game.right_flipper g) = false
  /\ in_range (Flipper.angle (Game.left_flipper g))
  /\ in_range (Flipper.angle (Game.right_flipper g))
  /\ (0 <= Game.score g)%Z.

Definition is_quit (event : Game.Event) : bool :=
  match event with
  | Game.QUIT => true
  | Game.KEYDOWN key => Game.is_quit_key key
  | Game.OTHER => false
  end.

Definition is_launch (event : Game.Event) : bool :=
  match event with
  | Game.KEYDOWN key => Game.is_space key
  | _ => false
  end.

(** Between two states: the flippers, the bumpers and the count of balls
    constructed are the same, and a ball held before is still the ball
    held after. *)
Definition ball_kept (g g' : Game.t) : Prop :=
  Game.left_flipper g' = Game.left_flipper g
  /\ Game.right_flipper g' = Game.right_flipper g
  /\ Game.bumpers g' = Game.bumpers g
  /\ Game.constructed g' = Game.constructed g
  /\ (forall b, Game.ball g = Some b ->
        exists b', Game.ball g' = Some b' /\ Ball.ident b' = Ball.ident b).

Definition keeps_ball {A} (m : Game.M A) : Prop :=
  forall g, ball_kept g (Game.state_of (m g)).

(** * Properties *)

(** ** Boolean comparisons *)

Lemma Rltb_true a b : Rltb a b = true <-> a < b.
Proof. unfold Rltb; destruct (Rlt_dec a b); split; intros; try discriminate; tauto. Qed.

Lemma Rltb_false a b : Rltb a b = false <-> b <= a.
Proof.
  unfold Rltb; destruct (Rlt_dec a b); split; intros; try discriminate;
    try reflexivity; lra.
Qed.

Lemma Rleb_true a b : Rleb a b = true <-> a <= b.
Proof. unfold Rleb; destruct (Rle_dec a b); split; intros; try discriminate; tauto. Qed.

Lemma Rleb_false a b : Rleb a b = false <-> b < a.
Proof.
  unfold Rleb; destruct (Rle_dec a b); split; intros; try discriminate;
    try reflexivity; lra.
Qed.

Lemma Rgtb_true a b : Rgtb a b = true <-> a > b.
Proof. unfold Rgtb; rewrite Rltb_true; lra. Qed.

Lemma Rgtb_false a b : Rgtb a b = false <-> a <= b.
Proof. unfold Rgtb; rewrite Rltb_false; lra. Qed.

(** Case analysis on every boolean comparison of the goal. *)
Ltac rcases :=
  repeat match goal with
    | |- context [Rltb ?a ?b] =>
        let E := fresh "E" in
        destruct (Rltb a b) eqn:E;
        [apply Rltb_true in E | apply Rltb_false in E]
    | |- context [Rleb ?a ?b] =>
        let E := fresh "E" in
        destruct (Rleb a b) eqn:E;
        [apply Rleb_true in E | apply Rleb_false in E]
    | |- context [Rgtb ?a ?b] =>
        let E := fresh "E" in
        destruct (Rgtb a b) eqn:E;
        [apply Rgtb_true in E | apply Rgtb_false in E]
    end.

(** ** Flipper actuation *)

Lemma PI_gt_3 : 3 < PI.
Proof. generalize PI2_3_2; lra. Qed.

Lemma rest_lt_active : FLIPPER_REST_ANGLE < FLIPPER_ANGLE.
Proof.
  unfold FLIPPER_REST_ANGLE, FLIPPER_ANGLE, radians.
  generalize PI_gt_3; lra.
Qed.

Lemma speed_pos : 0 < FLIPPER_SPEED.
Proof. unfold FLIPPER_SPEED, radians. generalize PI_gt_3; lra. Qed.

Lemma target_in_range f : in_range (Flipper.target_of f).
Proof.
  unfold in_range, Flipper.target_of.
  generalize rest_lt_active; destruct (Flipper.activated f); lra.
Qed.

Lemma update_snaps f dt :
  isclose (Flipper.angle f) (Flipper.target_of f) 1e-3 = true ->
  Flipper.angle (Flipper.update f dt) = Flipper.target_of f.
Proof. intros H. unfold Flipper.update. rewrite H. reflexivity. Qed.

Lemma update_towards_target f dt :
  0 <= dt ->
  let a := Flipper.angle f in
  let a' := Flipper.angle (Flipper.update f dt) in
  let tg := Flipper.target_of f in
  (a <= tg -> a <= a' <= tg) /\ (tg <= a -> tg <= a' <= a).
Proof.
  intros Hdt. cbv zeta. unfold Flipper.update.
  pose proof speed_pos as Hs.
  assert (Hstep : 0 <= FLIPPER_SPEED * dt) by (apply Rmult_le_pos; lra).
  destruct (isclose _ _ _); [cbn; lra|].
  destruct (Rgtb (Flipper.target_of f) (Flipper.angle f)) eqn:Ed;
    [apply Rgtb_true in Ed | apply Rgtb_false in Ed].
  - rcases; cbn; lra.
  - rcases; cbn; lra.
Qed.

Lemma update_in_range f dt :
  0 <= dt -> in_range (Flipper.angle f) ->
  in_range (Flipper.angle (Flipper.update f dt)).
Proof.
  intros Hdt Hin.
  pose proof (update_towards_target f dt Hdt) as [Hup Hdown].
  pose proof (target_in_range f) as Ht.
  unfold in_range in *.
  destruct (Rle_dec (Flipper.angle f) (Flipper.target_of f)).
  - specialize (Hup r). lra.
  - assert (Hge : Flipper.target_of f <= Flipper.angle f) by lra.
    specialize (Hdown Hge). lra.
Qed.

Lemma actuate_in_range f tick :
  0 <= snd tick -> in_range (Flipper.angle f) ->
  in_range (Flipper.angle (actuate f tick)).
Proof. intros Hdt Hin. unfold actuate. now apply update_in_range. Qed.

(** C1. Started between the rest angle and the activated angle, a flipper
    stays there through any sequence of ticks, whatever the activated flags
    and the (non-negative) time steps are; a single update moves the angle
    towards the current target without passing it, and an angle that
    [math.isclose] accepts as being at the target becomes the target. *)
Theorem flipper_angle_in_range :
  forall (ticks : list (bool * R)) (f : Flipper.t),
    Forall (fun tick => 0 <= snd tick) ticks ->
    in_range (Flipper.angle f) ->
    in_range (Flipper.angle (actuate_all ticks f))
    /\ (forall dt, 0 <= dt ->
          let a := Flipper.angle f in
          let a' := Flipper.angle (Flipper.update f dt) in
          let tg := Flipper.target_of f in
          in_range a'
          /\ (a <= tg -> a <= a' <= tg)
          /\ (tg <= a -> tg <= a' <= a)
          /\ (isclose a tg 1e-3 = true -> a' = tg)).
Proof.
  intros ticks f Hticks Hin. split.
  - unfold actuate_all. revert f Hin.
    induction Hticks as [|tick ticks Hdt _ IH]; intros f Hin; cbn.
    + exact Hin.
    + apply IH. now apply actuate_in_range.
  - intros dt Hdt. cbv zeta.
    pose proof (update_towards_target f dt Hdt) as [Hup Hdown].
    split; [now apply update_in_range|].
    split; [exact Hup|].
    split; [exact Hdown|].
    apply update_snaps.
Qed.

Lemma flipper_angle_in_range_witness :
  in_range
    (Flipper.angle
       (actuate_all [(true, 1 / 60); (false, 1 / 60)]
          (Game.left_flipper Game.init))).
Proof.
  apply (flipper_angle_in_range [(true, 1 / 60); (false, 1 / 60)]
           (Game.left_flipper Game.init)).
  - repeat constructor; cbn; lra.
  - unfold in_range; cbn. generalize rest_lt_active; lra.
Defined.

(** ** Walls *)

Lemma WIDTH_val : IZR WIDTH = 800.
Proof. reflexivity. Qed.

Lemma HEIGHT_val : IZR HEIGHT = 1000.
Proof. reflexivity. Qed.

Ltac walls :=
  unfold Ball._handle_walls, Ball.wall_top, Ball.wall_right, Ball.wall_left,
    BALL_RADIUS in *;
  rewrite ?WIDTH_val in *; cbn [Ball.position Ball.velocity Ball.ident
    Vector2.x Vector2.y] in *.

(** C9. Whatever the ball state, after [_handle_walls] the centre is at
    least a radius inside the left, right and top walls. *)
Theorem handle_walls_inside :
  forall b : Ball.t,
    let p := Ball.position (Ball._handle_walls b) in
    20 + BALL_RADIUS <= Vector2.x p <= IZR WIDTH - 20 - BALL_RADIUS
    /\ 20 + BALL_RADIUS <= Vector2.y p.
Proof.
  intros [i [px py] [vx vy]]. cbv zeta. walls.
  destruct (Rltb (px - 12) 20) eqn:El;
    [apply Rltb_true in El | apply Rltb_false in El]; walls.
  - destruct (Rgtb (20 + 12 + 12) (800 - 20)) eqn:Er;
      [apply Rgtb_true in Er; lra | apply Rgtb_false in Er]; walls.
    destruct (Rltb (py - 12) 20) eqn:Et;
      [apply Rltb_true in Et | apply Rltb_false in Et]; walls; lra.
  - destruct (Rgtb (px + 12) (800 - 20)) eqn:Er;
      [apply Rgtb_true in Er | apply Rgtb_false in Er]; walls;
    (destruct (Rltb (py - 12) 20) eqn:Et;
      [apply Rltb_true in Et | apply Rltb_false in Et]); walls; lra.
Qed.

Lemma wall_left_after b :
  penetrates LeftWall b ->
  Ball._handle_walls b
  = Ball.wall_top
      (Ball.mk (Ball.ident b)
         (Vector2.mk (20 + BALL_RADIUS) (Vector2.y (Ball.position b)))
         (Vector2.mk (Rabs (Vector2.x (Ball.velocity b)) * 0.92)
                     (Vector2.y (Ball.velocity b)))).
Proof.
  destruct b as [i [px py] [vx vy]]. unfold penetrates. intros H. walls.
  apply Rltb_true in H. rewrite H.
  assert (Er : Rgtb (20 + 12 + 12) (800 - 20) = false)
    by (apply Rgtb_false; lra).
  walls. rewrite Er. reflexivity.
Qed.

Lemma wall_right_after b :
  penetrates RightWall b ->
  Ball._handle_walls b
  = Ball.wall_top
      (Ball.mk (Ball.ident b)
         (Vector2.mk (IZR WIDTH - 20 - BALL_RADIUS)
                     (Vector2.y (Ball.position b)))
         (Vector2.mk (- Rabs (Vector2.x (Ball.velocity b)) * 0.92)
                     (Vector2.y (Ball.velocity b)))).
Proof.
  destruct b as [i [px py] [vx vy]]. unfold penetrates. intros H. walls.
  assert (El : Rltb (px - 12) 20 = false) by (apply Rltb_false; lra).
  apply Rgtb_true in H. rewrite El. walls. rewrite H. reflexivity.
Qed.

Lemma wall_top_x b :
  Vector2.x (Ball.position (Ball.wall_top b)) = Vector2.x (Ball.position b)
  /\ Vector2.x (Ball.velocity (Ball.wall_top b)) = Vector2.x (Ball.velocity b).
Proof. unfold Ball.wall_top. rcases; cbn; auto. Qed.

Lemma wall_side_y b :
  Vector2.y (Ball.position (Ball.wall_right (Ball.wall_left b)))
  = Vector2.y (Ball.position b)
  /\ Vector2.y (Ball.velocity (Ball.wall_right (Ball.wall_left b)))
     = Vector2.y (Ball.velocity b).
Proof.
  unfold Ball.wall_right, Ball.wall_left.
  destruct (Rltb (Vector2.x (Ball.position b) - BALL_RADIUS) 20); cbn;
    rcases; cbn; auto.
Qed.

(** What [_handle_walls] does to the coordinate of a penetrated wall. *)
Lemma bounce_component w b :
  penetrates w b ->
  along w (Ball.position (Ball._handle_walls b)) = clamped_at w
  /\ along w (Ball.velocity (Ball._handle_walls b))
     = (match w with RightWall => -1 | _ => 1 end)
       * (restitution * Rabs (along w (Ball.velocity b))).
Proof.
  intros H. destruct w.
  - rewrite (wall_left_after b H).
    destruct (wall_top_x
      (Ball.mk (Ball.ident b)
         (Vector2.mk (20 + BALL_RADIUS) (Vector2.y (Ball.position b)))
         (Vector2.mk (Rabs (Vector2.x (Ball.velocity b)) * 0.92)
                     (Vector2.y (Ball.velocity b))))) as [Hp Hv].
    cbn [along clamped_at]. rewrite Hp, Hv. cbn. unfold restitution.
    split; lra.
  - rewrite (wall_right_after b H).
    destruct (wall_top_x
      (Ball.mk (Ball.ident b)
         (Vector2.mk (IZR WIDTH - 20 - BALL_RADIUS)
                     (Vector2.y (Ball.position b)))
         (Vector2.mk (- Rabs (Vector2.x (Ball.velocity b)) * 0.92)
                     (Vector2.y (Ball.velocity b))))) as [Hp Hv].
    cbn [along clamped_at]. rewrite Hp, Hv. cbn. unfold restitution.
    split; lra.
  - destruct (wall_side_y b) as [Hp Hv].
    unfold Ball._handle_walls, Ball.wall_top. cbn [along clamped_at penetrates] in *.
    rewrite Hp, Hv. apply Rltb_true in H. rewrite H. cbn.
    unfold restitution. split; lra.
Qed.

Lemma bounce_speed w b :
  penetrates w b -> speed_after w b = restitution * speed_before w b.
Proof.
  intros H. destruct (bounce_component w b H) as [_ Hv].
  unfold speed_after, speed_before.
  pose proof (Rabs_pos (along w (Ball.velocity b))) as Hpos.
  assert (Hr : restitution = 0.92) by reflexivity.
  rewrite Hv. destruct w.
  - rewrite Rmult_1_l. apply Rabs_pos_eq. rewrite Hr. lra.
  - replace (-1 * (restitution * Rabs (along RightWall (Ball.velocity b))))
      with (- (restitution * Rabs (along RightWall (Ball.velocity b))))
      by ring.
    rewrite Rabs_Ropp. apply Rabs_pos_eq. rewrite Hr. lra.
  - rewrite Rmult_1_l. apply Rabs_pos_eq. rewrite Hr. lra.
Qed.

(** C7, as amended.  When the ball penetrates the left, right or top wall,
    [_handle_walls] puts the matching coordinate at the wall offset by the
    radius towards the inside and turns the matching velocity component
    inwards with exactly [restitution] (0.92, below 1) times its former
    magnitude; hence the speed along that axis after the bounce is at most
    the speed before, the two being equal only for a zero component. *)
Theorem wall_bounce :
  forall (w : Wall) (b : Ball.t),
    penetrates w b ->
    along w (Ball.position (Ball._handle_walls b)) = clamped_at w
    /\ along w (Ball.velocity (Ball._handle_walls b))
       = (match w with RightWall => -1 | _ => 1 end)
         * (restitution * speed_before w b)
    /\ restitution < 1
    /\ speed_after w b = restitution * speed_before w b
    /\ speed_after w b <= speed_before w b
    /\ (speed_after w b = speed_before w b ->
        along w (Ball.velocity b) = 0).
Proof.
  intros w b H. destruct (bounce_component w b H) as [Hp Hv].
  pose proof (bounce_speed w b H) as Ha.
  assert (Hr : restitution = 0.92) by reflexivity.
  assert (Hpos : 0 <= speed_before w b) by apply Rabs_pos.
  split; [exact Hp|]. split; [exact Hv|].
  split; [rewrite Hr; lra|]. split; [exact Ha|].
  split; [rewrite Ha, Hr; lra|].
  rewrite Ha, Hr. intros Heq.
  assert (Hz : speed_before w b = 0) by lra.
  unfold speed_before in Hz.
  destruct (Req_dec (along w (Ball.velocity b)) 0) as [|Hne]; [assumption|].
  apply Rabs_no_R0 in Hne. contradiction.
Qed.

Lemma wall_bounce_witness :
  let b := Ball.mk 0 (Vector2.mk 0 500) (Vector2.mk (-100) 0) in
  along LeftWall (Ball.position (Ball._handle_walls b)) = clamped_at LeftWall.
Proof.
  intros b.
  refine (proj1 (wall_bounce LeftWall b _)).
  unfold b, penetrates, BALL_RADIUS; cbn; lra.
Defined.

(** C7, as worded: a ball that crosses the left wall with a horizontal
    velocity of -100 leaves with speed 92, which equals the restitution
    times the speed before although the velocity is not zero. *)
Lemma energy_bound_as_worded_fails :
  let b := Ball.mk 0 (Vector2.mk 0 500) (Vector2.mk (-100) 0) in
  penetrates LeftWall b /\ ~ energy_bound_as_worded LeftWall b.
Proof.
  intros b.
  assert (Hpen : penetrates LeftWall b)
    by (unfold b, penetrates, BALL_RADIUS; cbn; lra).
  split; [exact Hpen|].
  intros [_ Hzero].
  specialize (Hzero (bounce_speed LeftWall b Hpen)).
  unfold b in Hzero. cbn in Hzero. lra.
Qed.

(** ** Integration *)

Lemma handle_walls_clear b : no_wall_crossed b -> Ball._handle_walls b = b.
Proof.
  intros (Hl & Hr & Ht). unfold penetrates in Hl, Hr, Ht.
  unfold Ball._handle_walls, Ball.wall_left.
  assert (E1 : forall a c, ~ a < c -> Rltb a c = false)
    by (intros; apply Rltb_false; lra).
  assert (E2 : forall a c, ~ a > c -> Rgtb a c = false)
    by (intros; apply Rgtb_false; lra).
  rewrite (E1 _ _ Hl). unfold Ball.wall_right. rewrite (E2 _ _ Hr).
  unfold Ball.wall_top. rewrite (E1 _ _ Ht). reflexivity.
Qed.

(** C8. [Ball.update] adds the gravity term to the vertical velocity first
    and moves the ball by the updated velocity; when no wall is crossed
    that is all it does, so a ball at rest at height 0 ends the tick with
    vertical velocity [GRAVITY * dt] and height [GRAVITY * dt * dt]. *)
Theorem ball_update_semi_implicit :
  forall (b : Ball.t) (dt : R),
    no_wall_crossed (Ball.integrate b dt) ->
    let p := Ball.position b in
    let v := Ball.velocity b in
    let b' := Ball.update b dt in
    Vector2.x (Ball.velocity b') = Vector2.x v
    /\ Vector2.y (Ball.velocity b') = Vector2.y v + GRAVITY * dt
    /\ Vector2.x (Ball.position b')
       = Vector2.x p + Vector2.x (Ball.velocity b') * dt
    /\ Vector2.y (Ball.position b')
       = Vector2.y p + Vector2.y (Ball.velocity b') * dt
    /\ (v = Vector2.mk 0 0 -> Vector2.y p = 0 ->
        Vector2.y (Ball.velocity b') = GRAVITY * dt
        /\ Vector2.y (Ball.position b') = GRAVITY * dt * dt).
Proof.
  intros [i [px py] [vx vy]] dt Hclear. cbv zeta.
  unfold Ball.update. rewrite (handle_walls_clear _ Hclear). cbn.
  repeat split; try reflexivity.
  - injection H as -> ->. lra.
  - injection H as -> ->. cbn in H0. subst py. ring.
Qed.

Lemma ball_update_semi_implicit_witness :
  let b := Ball.mk 0 (Vector2.mk 400 0) (Vector2.mk 0 0) in
  Vector2.y (Ball.velocity (Ball.update b 1)) = GRAVITY * 1
  /\ Vector2.y (Ball.position (Ball.update b 1)) = GRAVITY * 1 * 1.
Proof.
  intros b.
  refine (proj2 (proj2 (proj2 (proj2
            (ball_update_semi_implicit b 1 _)))) eq_refl eq_refl).
  unfold no_wall_crossed, penetrates, b, BALL_RADIUS.
  rewrite WIDTH_val. cbn. unfold GRAVITY. repeat split; lra.
Defined.

(** ** Score accounting *)

Import Game.

Lemma grows_refl g : grows g g.
Proof. split; [lia | reflexivity]. Qed.

Lemma grows_trans g1 g2 g3 : grows g1 g2 -> grows g2 g3 -> grows g1 g3.
Proof. intros [H1 E1] [H2 E2]. split; [lia | congruence]. Qed.

Lemma grows_sound g g' : grows g g' -> sound_table g -> sound_table g'.
Proof. intros [_ E] H. unfold sound_table. now rewrite E. Qed.

Lemma monotone_ret {A} (a : A) : monotone (ret a).
Proof. intros g _. apply grows_refl. Qed.

Lemma monotone_bind {A B} (m : M A) (f : A -> M B) :
  monotone m -> (forall a, monotone (f a)) -> monotone (bind m f).
Proof.
  intros Hm Hf g Hg. unfold bind.
  specialize (Hm g Hg). destruct (m g) as [a g'|e g']; cbn in *.
  - eapply grows_trans; [exact Hm|]. apply Hf. eapply grows_sound; eauto.
  - exact Hm.
Qed.

Lemma monotone_call_collide c : monotone (call_collide c).
Proof.
  intros g _. unfold call_collide.
  destruct (ball g); [|apply grows_refl].
  destruct (c t0) as [[hit b']|]; [|apply grows_refl].
  split; cbn; [lia | reflexivity].
Qed.

Lemma monotone_for_each {A} (l : list A) (body : A -> M unit) :
  Forall (fun a => monotone (body a)) l -> monotone (for_each l body).
Proof.
  induction 1 as [|a l Ha _ IH]; cbn.
  - apply monotone_ret.
  - apply monotone_bind; auto.
Qed.

Lemma monotone_flipper_pass : monotone flipper_pass.
Proof.
  intros g Hg. unfold flipper_pass.
  apply monotone_for_each; [|exact Hg].
  assert (Hone : forall flipper : Flipper.t,
             monotone (call_collide (Flipper.collide flipper) ;; ret tt)).
  { intros flipper. apply monotone_bind;
      [apply monotone_call_collide | intros; apply monotone_ret]. }
  apply Forall_cons; [apply Hone|].
  apply Forall_cons; [apply Hone|]. apply Forall_nil.
Qed.

Lemma monotone_bumper_step bumper :
  (0 <= Bumper.value bumper)%Z -> monotone (bumper_step bumper).
Proof.
  intros Hv. unfold bumper_step.
  apply monotone_bind; [apply monotone_call_collide|].
  intros [|]; [|apply monotone_ret].
  intros g _. split; cbn; [lia | reflexivity].
Qed.

Lemma monotone_bumper_pass : monotone bumper_pass.
Proof.
  intros g Hg. unfold bumper_pass.
  apply monotone_for_each; [|exact Hg].
  eapply Forall_impl; [|exact Hg].
  intros bumper Hv. now apply monotone_bumper_step.
Qed.

Lemma monotone_handle_collisions : monotone _handle_collisions.
Proof.
  intros g Hg. unfold _handle_collisions.
  destruct (ball g); [|apply grows_refl].
  apply (monotone_bind flipper_pass (fun _ => bumper_pass));
    [apply monotone_flipper_pass | intros; apply monotone_bumper_pass | exact Hg].
Qed.

Lemma monotone_drain : monotone drain.
Proof.
  intros g _. unfold drain.
  destruct (ball g); [|apply grows_refl].
  destruct (Rgtb _ _); [|apply grows_refl].
  split; cbn; [lia | reflexivity].
Qed.

Lemma monotone_update keys dt : monotone (update keys dt).
Proof.
  intros g Hg. unfold update. cbn [ball with_flippers].
  destruct (ball g) as [b|]; [|split; cbn; [lia | reflexivity]].
  match goal with
  | |- grows _ (state_of (_ ?g1)) =>
      assert (H1 : grows g g1) by (split; cbn; [lia | reflexivity]);
      apply (grows_trans g g1); [exact H1|];
      apply (monotone_bind _handle_collisions (fun _ => drain));
        [apply monotone_handle_collisions
        | intros; apply monotone_drain
        | exact (grows_sound _ _ H1 Hg)]
  end.
Qed.





Lemma created_bumpers_sound :
  Forall (fun bumper => (0 <= Bumper.value bumper)%Z) _create_bumpers.
Proof. unfold _create_bumpers. cbn. repeat constructor; cbn; lia. Qed.



Lemma with_ball_same g b : ball g = Some b -> with_ball (Some b) g = g.
Proof. destruct g; cbn; intros ->; reflexivity. Qed.

Lemma bumper_out_of_range bumper b :
  BUMPER_RADIUS + BALL_RADIUS < distance_to bumper b ->
  Bumper.collide bumper b = Some (false, b).
Proof.
  intros H. unfold Bumper.collide. fold (distance_to bumper b).
  apply Rleb_false in H. rewrite H. reflexivity.
Qed.



(** ** The flipper pass *)

(** C10. The flipper loop of [_handle_collisions] drops what
    [Flipper.collide] returns: whether it ends normally or in an exception,
    it leaves the score (and everything but the ball) as it found it. *)
Theorem flipper_pass_keeps_score :
  forall g : Game.t,
    let g' := state_of (flipper_pass g) in
    score g' = score g
    /\ left_flipper g' = left_flipper g
    /\ right_flipper g' = right_flipper g
    /\ bumpers g' = bumpers g
    /\ constructed g' = constructed g.
Proof.
  intros g. cbv zeta. unfold flipper_pass. cbn [for_each].
  unfold bind, call_collide, ret.
  destruct (ball g) as [b|]; cbn; [|tauto].
  destruct (Flipper.collide (left_flipper g) b) as [[h1 b1]|]; cbn; [|tauto].
  destruct (Flipper.collide (right_flipper g) b1) as [[h2 b2]|]; cbn; tauto.
Qed.

(** ** Launch requests *)

Lemma handle_events_active events :
  forall running g,
    ball_active g = true ->
    exists running', handle_events events running g = Ok running' g.
Proof.
  induction events as [|[event u] rest IH]; intros running g Ha; cbn.
  - now exists running.
  - unfold bind.
    assert (He : exists r, handle_event u event running g = Ok r g).
    { destruct event as [|key|]; cbn; try (eexists; reflexivity).
      rewrite Ha. cbn. rewrite andb_false_r. eexists; reflexivity. }
    destruct He as [r ->]. now apply IH.
Qed.

(** C2. While a ball is active, the launch request (the SPACE key event as
    [run] serves it) returns normally and leaves the game as it is: the
    ball held afterwards is the very ball held before, the score, the
    flippers and the count of constructed balls are unchanged.  The same
    holds for any batch of events of a frame. *)
Theorem launch_while_active_is_noop :
  forall (g : Game.t) (b : Ball.t) (u : R) (running : bool),
    ball g = Some b ->
    handle_event u (KEYDOWN K_SPACE) running g = Ok running g
    /\ ball (state_of (handle_event u (KEYDOWN K_SPACE) running g)) = Some b
    /\ (forall events : list (Event * R),
          exists running',
            handle_events events running g = Ok running' g).
Proof.
  intros g b u running Hb.
  assert (Ha : ball_active g = true) by (unfold ball_active; now rewrite Hb).
  assert (H1 : handle_event u (KEYDOWN K_SPACE) running g = Ok running g).
  { cbn. rewrite Ha. reflexivity. }
  split; [exact H1|]. split.
  - rewrite H1. exact Hb.
  - intros events. now apply handle_events_active.
Qed.

Lemma launch_while_active_is_noop_witness :
  let g := state_of (launch_ball 0 init) in
  handle_event 100 (KEYDOWN K_SPACE) true g = Ok true g.
Proof.
  intros g.
  exact (proj1 (launch_while_active_is_noop g
                  (Ball.mk 0 (Vector2.mk (IZR WIDTH - 70) (IZR HEIGHT - 80))
                           (Vector2.mk 0 (- LAUNCH_FORCE)))
                  100 true eq_refl)).
Defined.

(** [launch_ball] itself has no guard: called on a game that holds a ball it
    installs a newly constructed one. *)
Lemma launch_ball_replaces g b u :
  ball g = Some b ->
  (Ball.ident b < constructed g)%nat ->
  exists b', ball (state_of (launch_ball u g)) = Some b'
             /\ Ball.ident b' <> Ball.ident b.
Proof.
  intros _ Hid. cbn. eexists; split; [reflexivity|]. cbn. lia.
Qed.

(** ** Vectors *)

Lemma vec_eq (a b : Vector2.t) :
  Vector2.x a = Vector2.x b -> Vector2.y a = Vector2.y b -> a = b.
Proof. destruct a, b; cbn; intros -> ->; reflexivity. Qed.

Lemma dot_self_nonneg a : 0 <= Vector2.dot a a.
Proof. unfold Vector2.dot. nra. Qed.

Lemma length_nonneg a : 0 <= Vector2.length a.
Proof. apply sqrt_pos. Qed.

Lemma length_sqr a : Vector2.length a * Vector2.length a = Vector2.dot a a.
Proof. apply sqrt_sqrt, dot_self_nonneg. Qed.

Lemma length_zero_iff a :
  Vector2.length a = 0 <-> a = Vector2.mk 0 0.
Proof.
  split.
  - intros H. pose proof (length_sqr a) as Hs. rewrite H in Hs.
    unfold Vector2.dot in Hs. apply vec_eq; cbn; nra.
  - intros ->. unfold Vector2.length, Vector2.dot. cbn.
    replace (0 * 0 + 0 * 0) with 0 by ring. apply sqrt_0.
Qed.

Lemma sub_zero_iff a b : Vector2.sub a b = Vector2.mk 0 0 <-> a = b.
Proof.
  split.
  - intros H. injection H as Hx Hy. apply vec_eq; lra.
  - intros ->. apply vec_eq; cbn; ring.
Qed.

Lemma normalize_None_iff a :
  Vector2.normalize a = None <-> a = Vector2.mk 0 0.
Proof.
  unfold Vector2.normalize.
  destruct (Req_dec_T (Vector2.length a) 0) as [E|E].
  - split; [intros _; now apply length_zero_iff | reflexivity].
  - split; [discriminate | intros H; apply length_zero_iff in H; contradiction].
Qed.

Lemma normalize_Some a n :
  Vector2.normalize a = Some n ->
  0 < Vector2.length a
  /\ n = Vector2.mk (Vector2.x a / Vector2.length a)
                    (Vector2.y a / Vector2.length a)
  /\ Vector2.dot n n = 1
  /\ Vector2.scale n (Vector2.length a) = a.
Proof.
  unfold Vector2.normalize.
  destruct (Req_dec_T (Vector2.length a) 0) as [E|E]; [discriminate|].
  intros H. injection H as <-.
  pose proof (length_nonneg a) as Hn. pose proof (length_sqr a) as Hs.
  assert (Hpos : 0 < Vector2.length a) by lra.
  repeat split; try assumption.
  - unfold Vector2.dot in *. cbn.
    replace (Vector2.x a / Vector2.length a * (Vector2.x a / Vector2.length a)
             + Vector2.y a / Vector2.length a * (Vector2.y a / Vector2.length a))
      with ((Vector2.x a * Vector2.x a + Vector2.y a * Vector2.y a)
            / (Vector2.length a * Vector2.length a)) by (field; lra).
    rewrite Hs. field. nra.
  - apply vec_eq; cbn; field; lra.
Qed.

Lemma reflect_unit v n :
  Vector2.dot n n = 1 -> Vector2.reflect v n = Some (mirror v n).
Proof.
  intros H. unfold Vector2.reflect. rewrite H.
  destruct (Rlt_dec 1 Vector2.epsilon) as [Hlt|_].
  - unfold Vector2.epsilon in Hlt. lra.
  - destruct (Req_dec_T 1 1) as [_|Hne]; [|contradiction].
    f_equal. apply vec_eq; unfold mirror; cbn; ring.
Qed.

Lemma length_scale_unit n k :
  Vector2.dot n n = 1 -> 0 <= k -> Vector2.length (Vector2.scale n k) = k.
Proof.
  intros H Hk. unfold Vector2.length.
  replace (Vector2.dot (Vector2.scale n k) (Vector2.scale n k))
    with (k * k).
  - now apply sqrt_square.
  - unfold Vector2.dot in *. cbn.
    replace (Vector2.x n * k * (Vector2.x n * k)
             + Vector2.y n * k * (Vector2.y n * k))
      with ((Vector2.x n * Vector2.x n + Vector2.y n * Vector2.y n) * (k * k))
      by ring.
    rewrite H. ring.
Qed.

Lemma add_sub_cancel p q : Vector2.sub (Vector2.add p q) p = q.
Proof. apply vec_eq; cbn; ring. Qed.

Lemma mirror_keeps_length v n :
  Vector2.dot n n = 1 -> Vector2.dot (mirror v n) (mirror v n) = Vector2.dot v v.
Proof.
  intros H. unfold mirror, Vector2.dot in *. cbn.
  set (a := Vector2.x n) in *. set (b := Vector2.y n) in *.
  set (p := Vector2.x v). set (q := Vector2.y v).
  replace ((p - a * (2 * (p * a + q * b))) * (p - a * (2 * (p * a + q * b)))
           + (q - b * (2 * (p * a + q * b))) * (q - b * (2 * (p * a + q * b))))
    with (p * p + q * q
          + 4 * (p * a + q * b) * (p * a + q * b) * (a * a + b * b - 1))
    by ring.
  rewrite H. ring.
Qed.

(** ** Bumper collision *)

Lemma bumper_collide_far bumper b :
  BUMPER_RADIUS + BALL_RADIUS < distance_to bumper b <->
  Bumper.collide bumper b = Some (false, b).
Proof.
  split; [apply bumper_out_of_range|].
  unfold Bumper.collide. fold (distance_to bumper b).
  destruct (Rleb (distance_to bumper b) (BUMPER_RADIUS + BALL_RADIUS)) eqn:E.
  - destruct (Vector2.normalize _); [|discriminate].
    destruct (Vector2.reflect _ _); discriminate.
  - intros _. now apply Rleb_false.
Qed.

Lemma bumper_collide_near bumper b :
  Ball.position b <> Bumper.position bumper ->
  distance_to bumper b <= BUMPER_RADIUS + BALL_RADIUS ->
  exists normal,
    Vector2.normalize (Vector2.sub (Ball.position b) (Bumper.position bumper))
    = Some normal
    /\ Vector2.dot normal normal = 1
    /\ Bumper.collide bumper b
       = Some (true,
               Ball.mk (Ball.ident b)
                 (Vector2.add (Bumper.position bumper)
                    (Vector2.scale normal (BUMPER_RADIUS + BALL_RADIUS + 2)))
                 (Vector2.add (mirror (Ball.velocity b) normal)
                    (Vector2.scale normal (BUMPER_FORCE * 0.4)))).
Proof.
  intros Hne Hd. unfold Bumper.collide. fold (distance_to bumper b).
  apply Rleb_true in Hd. rewrite Hd.
  destruct (Vector2.normalize
              (Vector2.sub (Ball.position b) (Bumper.position bumper)))
    as [normal|] eqn:En.
  - exists normal. destruct (normalize_Some _ _ En) as (_ & _ & Hu & _).
    rewrite (reflect_unit _ _ Hu). repeat split; try assumption.
    do 3 f_equal. apply vec_eq; cbn; ring.
  - apply (proj1 (normalize_None_iff _)) in En.
    apply (proj1 (sub_zero_iff _ _)) in En.
    exfalso. exact (Hne En).
Qed.

Lemma bumper_collide_centre bumper b :
  Ball.position b = Bumper.position bumper <-> Bumper.collide bumper b = None.
Proof.
  split.
  - intros E. unfold Bumper.collide. rewrite E.
    assert (Hz : Vector2.sub (Bumper.position bumper) (Bumper.position bumper)
                 = Vector2.mk 0 0) by now apply sub_zero_iff.
    rewrite Hz.
    assert (Hl : Vector2.length (Vector2.mk 0 0) = 0)
      by now apply length_zero_iff.
    rewrite Hl.
    assert (Hc : Rleb 0 (BUMPER_RADIUS + BALL_RADIUS) = true)
      by (apply Rleb_true; unfold BUMPER_RADIUS, BALL_RADIUS; lra).
    rewrite Hc.
    assert (Hn : Vector2.normalize (Vector2.mk 0 0) = None)
      by now apply normalize_None_iff.
    rewrite Hn. reflexivity.
  - intros Hc.
    destruct (Rle_dec (distance_to bumper b) (BUMPER_RADIUS + BALL_RADIUS))
      as [Hd|Hd].
    + unfold Bumper.collide in Hc. fold (distance_to bumper b) in Hc.
      apply Rleb_true in Hd. rewrite Hd in Hc.
      destruct (Vector2.normalize _) as [normal|] eqn:En.
      * destruct (normalize_Some _ _ En) as (_ & _ & Hu & _).
        rewrite (reflect_unit _ _ Hu) in Hc. discriminate.
      * apply (proj1 (normalize_None_iff _)) in En.
        now apply (proj1 (sub_zero_iff _ _)) in En.
    + assert (Hf : BUMPER_RADIUS + BALL_RADIUS < distance_to bumper b) by lra.
      apply bumper_collide_far in Hf. congruence.
Qed.

(** C5, as amended.  For a ball whose centre is not the bumper's centre,
    [Bumper.collide] reports contact exactly when the centres are at most
    the sum of the radii apart; on contact the velocity becomes its mirror
    image about the outward unit normal plus [0.4 * BUMPER_FORCE] along
    that normal, and the ball is put at exactly the sum of the radii plus 2
    from the bumper's centre; without contact the ball is untouched.  A
    ball straight above the centre (smaller y) that moves straight down
    leaves with an upward (negative y) velocity. *)
Theorem bumper_collide_contact :
  forall (bumper : Bumper.t) (b : Ball.t),
    Ball.position b <> Bumper.position bumper ->
    let r := Bumper.collide bumper b in
    (contact_reported r <->
       distance_to bumper b <= BUMPER_RADIUS + BALL_RADIUS)
    /\ (~ contact_reported r -> r = Some (false, b))
    /\ (contact_reported r ->
        exists normal b',
          Vector2.normalize
            (Vector2.sub (Ball.position b) (Bumper.position bumper))
          = Some normal
          /\ r = Some (true, b')
          /\ Ball.ident b' = Ball.ident b
          /\ Ball.velocity b'
             = Vector2.add (mirror (Ball.velocity b) normal)
                 (Vector2.scale normal (BUMPER_FORCE * 0.4))
          /\ Ball.position b'
             = Vector2.add (Bumper.position bumper)
                 (Vector2.scale normal (BUMPER_RADIUS + BALL_RADIUS + 2))
          /\ distance_to bumper b' = BUMPER_RADIUS + BALL_RADIUS + 2)
    /\ (forall depth speed,
          0 < depth <= BUMPER_RADIUS + BALL_RADIUS -> 0 < speed ->
          Ball.position b
          = Vector2.mk (Vector2.x (Bumper.position bumper))
                       (Vector2.y (Bumper.position bumper) - depth) ->
          Ball.velocity b = Vector2.mk 0 speed ->
          exists b',
            r = Some (true, b')
            /\ Vector2.y (Ball.velocity b') = - speed - BUMPER_FORCE * 0.4
            /\ Vector2.y (Ball.velocity b') < 0).
Proof.
  intros bumper b Hne r.
  assert (Hiff : contact_reported r <->
                 distance_to bumper b <= BUMPER_RADIUS + BALL_RADIUS).
  { split.
    - intros [b' Hr].
      destruct (Rle_dec (distance_to bumper b) (BUMPER_RADIUS + BALL_RADIUS))
        as [Hd|Hd]; [exact Hd|].
      assert (Hf : BUMPER_RADIUS + BALL_RADIUS < distance_to bumper b) by lra.
      apply bumper_collide_far in Hf. unfold r in Hr. congruence.
    - intros Hd. destruct (bumper_collide_near bumper b Hne Hd)
        as (normal & _ & _ & Hr).
      eexists. exact Hr. }
  split; [exact Hiff|]. split; [|split].
  - intros Hno.
    apply bumper_collide_far.
    destruct (Rle_dec (distance_to bumper b) (BUMPER_RADIUS + BALL_RADIUS))
      as [Hd|Hd]; [|lra].
    exfalso. apply Hno. now apply Hiff.
  - intros Hc. apply Hiff in Hc.
    destruct (bumper_collide_near bumper b Hne Hc) as (normal & Hn & Hu & Hr).
    eexists normal, _. split; [exact Hn|]. split; [exact Hr|].
    cbn [Ball.ident Ball.velocity Ball.position].
    repeat split.
    unfold distance_to. cbn [Ball.position]. rewrite add_sub_cancel.
    apply length_scale_unit; [exact Hu|].
    unfold BUMPER_RADIUS, BALL_RADIUS. lra.
  - intros depth speed [Hd0 Hd1] Hs Hp Hv.
    assert (Hlen : distance_to bumper b = depth).
    { unfold distance_to. rewrite Hp.
      pose proof (length_sqr
        (Vector2.sub
           (Vector2.mk (Vector2.x (Bumper.position bumper))
                       (Vector2.y (Bumper.position bumper) - depth))
           (Bumper.position bumper))) as Hs2.
      pose proof (length_nonneg
        (Vector2.sub
           (Vector2.mk (Vector2.x (Bumper.position bumper))
                       (Vector2.y (Bumper.position bumper) - depth))
           (Bumper.position bumper))) as Hn2.
      unfold Vector2.dot in Hs2. cbn in Hs2. nra. }
    assert (Hc : distance_to bumper b <= BUMPER_RADIUS + BALL_RADIUS) by lra.
    destruct (bumper_collide_near bumper b Hne Hc) as (normal & Hn & Hu & Hr).
    destruct (normalize_Some _ _ Hn) as (_ & Hnv & _ & _).
    fold (distance_to bumper b) in Hnv. rewrite Hlen, Hp in Hnv. cbn in Hnv.
    eexists. split; [exact Hr|].
    cbn [Ball.velocity]. rewrite Hv, Hnv. unfold mirror, Vector2.dot. cbn.
    assert (E : (Vector2.y (Bumper.position bumper) - depth
                 - Vector2.y (Bumper.position bumper)) / depth = -1)
      by (field; lra).
    rewrite E. unfold BUMPER_FORCE. split; lra.
Qed.

Lemma bumper_collide_contact_witness :
  let bumper := Bumper.mk (Vector2.mk 400 560) 250 in
  let b := Ball.mk 0 (Vector2.mk 400 530) (Vector2.mk 0 300) in
  exists b',
    Bumper.collide bumper b = Some (true, b')
    /\ Vector2.y (Ball.velocity b') = - 300 - BUMPER_FORCE * 0.4
    /\ Vector2.y (Ball.velocity b') < 0.
Proof.
  intros bumper b.
  assert (Hne : Ball.position b <> Bumper.position bumper).
  { unfold b, bumper; cbn. intros H. injection H as H. lra. }
  refine (proj2 (proj2 (proj2 (bumper_collide_contact bumper b Hne)))
            30 300 _ _ _ _).
  - unfold BUMPER_RADIUS, BALL_RADIUS. lra.
  - lra.
  - unfold b, bumper; cbn. f_equal. lra.
  - reflexivity.
Defined.

(** C5, as worded: with the ball's centre on the bumper's centre the
    distance is zero, within the contact range, yet [collide] reports no
    contact: normalising the zero displacement raises. *)
Lemma bumper_contact_at_centre_fails :
  let bumper := Bumper.mk (Vector2.mk 400 560) 250 in
  let b := Ball.mk 0 (Vector2.mk 400 560) (Vector2.mk 0 300) in
  distance_to bumper b <= BUMPER_RADIUS + BALL_RADIUS
  /\ Bumper.collide bumper b = None
  /\ ~ contact_reported (Bumper.collide bumper b).
Proof.
  intros bumper b.
  assert (Hc : Bumper.collide bumper b = None)
    by (apply bumper_collide_centre; reflexivity).
  split; [|split; [exact Hc|]].
  - unfold distance_to.
    assert (Hz : Vector2.sub (Ball.position b) (Bumper.position bumper)
                 = Vector2.mk 0 0) by (apply sub_zero_iff; reflexivity).
    rewrite Hz.
    assert (Hl : Vector2.length (Vector2.mk 0 0) = 0)
      by now apply length_zero_iff.
    rewrite Hl. unfold BUMPER_RADIUS, BALL_RADIUS. lra.
  - intros [b' H]. rewrite Hc in H. discriminate.
Qed.

(** ** Flipper collision *)

Lemma heading_unit f : Vector2.dot (heading f) (heading f) = 1.
Proof.
  unfold heading, Vector2.dot. cbn.
  pose proof (sin2_cos2 (Flipper.angle f)) as H. unfold Rsqr in H.
  destruct (Flipper.is_left f); lra.
Qed.

Lemma tip_direction f :
  Vector2.normalize (Vector2.sub (Flipper.get_tip f) (Flipper.pivot f))
  = Some (heading f).
Proof.
  assert (Htip : Vector2.sub (Flipper.get_tip f) (Flipper.pivot f)
                 = Vector2.scale (heading f) FLIPPER_LENGTH).
  { unfold Flipper.get_tip. rewrite add_sub_cancel.
    unfold heading. destruct (Flipper.is_left f); cbn;
      apply vec_eq; cbn; ring. }
  rewrite Htip.
  assert (Hlen : Vector2.length (Vector2.scale (heading f) FLIPPER_LENGTH)
                 = FLIPPER_LENGTH).
  { apply length_scale_unit; [apply heading_unit | unfold FLIPPER_LENGTH; lra]. }
  unfold Vector2.normalize. rewrite Hlen.
  destruct (Req_dec_T FLIPPER_LENGTH 0) as [E|_].
  - unfold FLIPPER_LENGTH in E. lra.
  - f_equal. apply vec_eq; cbn; unfold FLIPPER_LENGTH; field.
Qed.

Lemma closest_point_total f b :
  Flipper.closest_point f b = Some (nearest_on_segment f b).
Proof. unfold Flipper.closest_point. rewrite tip_direction. reflexivity. Qed.

Lemma projection_bounds f b : 0 <= projection f b <= FLIPPER_LENGTH.
Proof.
  unfold projection, FLIPPER_LENGTH.
  match goal with |- context [Rmin 110 ?d] =>
    pose proof (Rmin_l 110 d); pose proof (Rmax_l 0 (Rmin 110 d));
    destruct (Rmax_case 0 (Rmin 110 d) (fun z => z <= 110)); lra
  end.
Qed.

Lemma flipper_collide_far f b :
  BALL_RADIUS + FLIPPER_WIDTH / 2 < gap f b <->
  Flipper.collide f b = Some (false, b).
Proof.
  unfold Flipper.collide. rewrite closest_point_total. fold (gap f b).
  destruct (Rleb (gap f b) (BALL_RADIUS + FLIPPER_WIDTH / 2)) eqn:E.
  - apply Rleb_true in E. split; [lra|].
    destruct (Flipper.respond _ _ _); discriminate.
  - apply Rleb_false in E. split; [reflexivity | intros _; exact E].
Qed.

Lemma flipper_collide_near f b :
  Ball.position b <> nearest_on_segment f b ->
  gap f b <= BALL_RADIUS + FLIPPER_WIDTH / 2 ->
  exists normal,
    Vector2.normalize (Vector2.sub (Ball.position b) (nearest_on_segment f b))
    = Some normal
    /\ Vector2.dot normal normal = 1
    /\ Flipper.collide f b = Some (true, kicked f b normal).
Proof.
  intros Hne Hg. unfold Flipper.collide. rewrite closest_point_total.
  fold (gap f b). apply Rleb_true in Hg. rewrite Hg. unfold Flipper.respond.
  destruct (Vector2.normalize
              (Vector2.sub (Ball.position b) (nearest_on_segment f b)))
    as [normal|] eqn:En.
  - exists normal. destruct (normalize_Some _ _ En) as (_ & _ & Hu & _).
    rewrite (reflect_unit _ _ Hu). repeat split; try assumption.
    unfold kicked. do 3 f_equal. apply vec_eq; cbn; ring.
  - apply (proj1 (normalize_None_iff _)) in En.
    apply (proj1 (sub_zero_iff _ _)) in En.
    exfalso. exact (Hne En).
Qed.

Lemma flipper_collide_on_axis f b :
  Ball.position b = nearest_on_segment f b <-> Flipper.collide f b = None.
Proof.
  split.
  - intros E. unfold Flipper.collide. rewrite closest_point_total.
    assert (Hz : Vector2.sub (Ball.position b) (nearest_on_segment f b)
                 = Vector2.mk 0 0) by now apply sub_zero_iff.
    rewrite Hz.
    assert (Hl : Vector2.length (Vector2.mk 0 0) = 0)
      by now apply length_zero_iff.
    rewrite Hl.
    assert (Hc : Rleb 0 (BALL_RADIUS + FLIPPER_WIDTH / 2) = true)
      by (apply Rleb_true; unfold BALL_RADIUS, FLIPPER_WIDTH; lra).
    rewrite Hc. unfold Flipper.respond. rewrite Hz.
    assert (Hn : Vector2.normalize (Vector2.mk 0 0) = None)
      by now apply normalize_None_iff.
    rewrite Hn. reflexivity.
  - intros Hc.
    destruct (Vector2.normalize
                (Vector2.sub (Ball.position b) (nearest_on_segment f b)))
      as [normal|] eqn:En.
    + exfalso.
      destruct (Rle_dec (gap f b) (BALL_RADIUS + FLIPPER_WIDTH / 2)) as [Hg|Hg].
      * assert (Hne : Ball.position b <> nearest_on_segment f b).
        { intros E. apply sub_zero_iff in E.
          apply normalize_None_iff in E. congruence. }
        destruct (flipper_collide_near f b Hne Hg) as (n & _ & _ & Hr).
        congruence.
      * assert (Hf : BALL_RADIUS + FLIPPER_WIDTH / 2 < gap f b) by lra.
        apply flipper_collide_far in Hf. congruence.
    + apply (proj1 (normalize_None_iff _)) in En.
      now apply (proj1 (sub_zero_iff _ _)) in En.
Qed.

(** C6, as amended.  The point [Flipper.collide] measures from is the point
    of the pivot-to-tip segment at the ball's projection cut to
    [0, FLIPPER_LENGTH].  For a ball whose centre is not that point,
    [collide] returns true exactly when the centre is within the ball
    radius plus half the flipper width of it; it then replaces the velocity
    by its mirror image about the unit normal (from that point to the
    ball) plus 120 along the normal, moves the ball 4 along the normal and
    takes 60 off the vertical velocity for the left flipper and nothing
    for the right one; otherwise it returns false and the ball is
    untouched. *)
Theorem flipper_collide_contact :
  forall (f : Flipper.t) (b : Ball.t),
    Ball.position b <> nearest_on_segment f b ->
    let r := Flipper.collide f b in
    Flipper.closest_point f b = Some (nearest_on_segment f b)
    /\ 0 <= projection f b <= FLIPPER_LENGTH
    /\ (contact_reported r <-> gap f b <= BALL_RADIUS + FLIPPER_WIDTH / 2)
    /\ (~ contact_reported r -> r = Some (false, b))
    /\ (contact_reported r ->
        exists normal b',
          Vector2.normalize
            (Vector2.sub (Ball.position b) (nearest_on_segment f b))
          = Some normal
          /\ r = Some (true, b')
          /\ Ball.ident b' = Ball.ident b
          /\ Ball.velocity b'
             = Vector2.add
                 (Vector2.add (mirror (Ball.velocity b) normal)
                              (Vector2.scale normal 120))
                 (Vector2.mk 0 (- (if Flipper.is_left f then 60 else 0)))
          /\ Ball.position b'
             = Vector2.add (Ball.position b) (Vector2.scale normal 4)).
Proof.
  intros f b Hne r.
  assert (Hiff : contact_reported r <->
                 gap f b <= BALL_RADIUS + FLIPPER_WIDTH / 2).
  { split.
    - intros [b' Hr].
      destruct (Rle_dec (gap f b) (BALL_RADIUS + FLIPPER_WIDTH / 2))
        as [Hg|Hg]; [exact Hg|].
      assert (Hf : BALL_RADIUS + FLIPPER_WIDTH / 2 < gap f b) by lra.
      apply flipper_collide_far in Hf. unfold r in Hr. congruence.
    - intros Hg. destruct (flipper_collide_near f b Hne Hg)
        as (normal & _ & _ & Hr).
      eexists. exact Hr. }
  split; [apply closest_point_total|].
  split; [apply projection_bounds|].
  split; [exact Hiff|]. split.
  - intros Hno. apply flipper_collide_far.
    destruct (Rle_dec (gap f b) (BALL_RADIUS + FLIPPER_WIDTH / 2))
      as [Hg|Hg]; [|lra].
    exfalso. apply Hno. now apply Hiff.
  - intros Hc. apply Hiff in Hc.
    destruct (flipper_collide_near f b Hne Hc) as (normal & Hn & Hu & Hr).
    exists normal, (kicked f b normal).
    split; [exact Hn|]. split; [exact Hr|]. cbn. repeat split.
Qed.

Lemma heading_bounds f :
  -1 <= Vector2.x (heading f) <= 1 /\ -1 <= Vector2.y (heading f) <= 1.
Proof.
  unfold heading. cbn.
  pose proof (COS_bound (Flipper.angle f)).
  pose proof (SIN_bound (Flipper.angle f)).
  destruct (Flipper.is_left f); lra.
Qed.

(** The nearest point lies within the flipper's length of the pivot on
    both axes, on the side the heading points to. *)
Lemma nearest_box f b :
  let c := nearest_on_segment f b in
  let p := Flipper.pivot f in
  Vector2.x p - FLIPPER_LENGTH <= Vector2.x c <= Vector2.x p + FLIPPER_LENGTH
  /\ Vector2.y p - FLIPPER_LENGTH <= Vector2.y c <= Vector2.y p + FLIPPER_LENGTH
  /\ (0 <= Vector2.y (heading f) -> Vector2.y p <= Vector2.y c).
Proof.
  cbv zeta. unfold nearest_on_segment, Vector2.add, Vector2.scale.
  cbn [Vector2.x Vector2.y].
  pose proof (projection_bounds f b) as Ht.
  pose proof (heading_bounds f) as [Hx Hy].
  set (t := projection f b) in *.
  set (hx := Vector2.x (heading f)) in *.
  set (hy := Vector2.y (heading f)) in *.
  unfold FLIPPER_LENGTH in *.
  assert (Hx1 : 0 <= (1 - hx) * t) by (apply Rmult_le_pos; lra).
  assert (Hx2 : 0 <= (1 + hx) * t) by (apply Rmult_le_pos; lra).
  assert (Hy1 : 0 <= (1 - hy) * t) by (apply Rmult_le_pos; lra).
  assert (Hy2 : 0 <= (1 + hy) * t) by (apply Rmult_le_pos; lra).
  split; [lra|]. split; [lra|].
  intros Hpos. assert (0 <= hy * t) by (apply Rmult_le_pos; lra). lra.
Qed.

Lemma length_ge_components v :
  Rabs (Vector2.x v) <= Vector2.length v /\ Rabs (Vector2.y v) <= Vector2.length v.
Proof.
  pose proof (length_sqr v) as Hs. pose proof (length_nonneg v) as Hn.
  unfold Vector2.dot in Hs.
  split; apply Rabs_le; split; nra.
Qed.

Lemma flipper_collide_contact_witness :
  let f := left_flipper init in
  let b := Ball.mk 0 (Vector2.mk 270 500) (Vector2.mk 0 100) in
  contact_reported (Flipper.collide f b)
  <-> gap f b <= BALL_RADIUS + FLIPPER_WIDTH / 2.
Proof.
  intros f b.
  refine (proj1 (proj2 (proj2 (flipper_collide_contact f b _)))).
  intros E. pose proof (nearest_box f b) as (_ & Hy & _).
  rewrite <- E in Hy. unfold f, b, FLIPPER_LENGTH in Hy. cbn in Hy. lra.
Defined.

(** C6, as worded: with the ball's centre on the pivot of the left flipper
    the distance to the segment is zero, within the contact range, yet
    [collide] does not return true: normalising the zero vector raises. *)
Lemma flipper_contact_on_axis_fails :
  let f := left_flipper init in
  let b := Ball.mk 0 (Vector2.mk 270 820) (Vector2.mk 0 100) in
  gap f b <= BALL_RADIUS + FLIPPER_WIDTH / 2
  /\ Flipper.collide f b = None
  /\ ~ contact_reported (Flipper.collide f b).
Proof.
  intros f b.
  assert (Hp : Ball.position b = nearest_on_segment f b).
  { unfold nearest_on_segment, projection.
    assert (Hd : Vector2.dot (Vector2.sub (Ball.position b) (Flipper.pivot f))
                             (heading f) = 0)
      by (unfold Vector2.dot, f, b; cbn; ring).
    rewrite Hd. unfold FLIPPER_LENGTH.
    rewrite Rmin_right by lra. rewrite Rmax_left by lra.
    apply vec_eq; unfold f, b; cbn; ring. }
  assert (Hc : Flipper.collide f b = None)
    by now apply flipper_collide_on_axis.
  split; [|split; [exact Hc|]].
  - unfold gap.
    assert (Hz : Vector2.sub (Ball.position b) (nearest_on_segment f b)
                 = Vector2.mk 0 0) by now apply sub_zero_iff.
    rewrite Hz.
    assert (Hl : Vector2.length (Vector2.mk 0 0) = 0)
      by now apply length_zero_iff.
    rewrite Hl. unfold BALL_RADIUS, FLIPPER_WIDTH. lra.
  - intros [b' H]. rewrite Hc in H. discriminate.
Qed.

(** C3, as amended.  Normalising the pivot-to-tip vector never fails, its
    length being [FLIPPER_LENGTH]; the contact normal of [Flipper.collide]
    is normalised from a zero vector exactly when the ball's centre is the
    nearest point of the segment, that of [Bumper.collide] exactly when the
    ball's centre is the bumper's centre; these are the only cases in
    which either [collide] raises. *)
Theorem collide_raises_on_coincidence :
  forall (f : Flipper.t) (bumper : Bumper.t) (b : Ball.t),
    Vector2.normalize (Vector2.sub (Flipper.get_tip f) (Flipper.pivot f))
    = Some (heading f)
    /\ Flipper.closest_point f b = Some (nearest_on_segment f b)
    /\ (Flipper.collide f b = None <->
        Vector2.normalize
          (Vector2.sub (Ball.position b) (nearest_on_segment f b)) = None)
    /\ (Flipper.collide f b = None <->
        Ball.position b = nearest_on_segment f b)
    /\ (Bumper.collide bumper b = None <->
        Vector2.normalize
          (Vector2.sub (Ball.position b) (Bumper.position bumper)) = None)
    /\ (Bumper.collide bumper b = None <->
        Ball.position b = Bumper.position bumper).
Proof.
  intros f bumper b.
  assert (Hn : forall p q,
             Vector2.normalize (Vector2.sub p q) = None <-> p = q).
  { intros p q. rewrite normalize_None_iff. apply sub_zero_iff. }
  split; [apply tip_direction|].
  split; [apply closest_point_total|].
  split; [rewrite Hn; symmetry; apply flipper_collide_on_axis|].
  split; [symmetry; apply flipper_collide_on_axis|].
  split; [rewrite Hn; symmetry; apply bumper_collide_centre|].
  symmetry; apply bumper_collide_centre.
Qed.

(** ** A session that ends in a failed normalisation *)

Lemma isclose_same a tol : isclose a a tol = true.
Proof.
  unfold isclose. destruct (Req_dec_T a a) as [_|H];
    [reflexivity | contradiction].
Qed.

Lemma rest_flipper_stays pivot side dt :
  Flipper.update
    (Flipper.toggle (Flipper.mk pivot side FLIPPER_REST_ANGLE false) false) dt
  = Flipper.mk pivot side FLIPPER_REST_ANGLE false.
Proof.
  unfold Flipper.update, Flipper.toggle, Flipper.target_of.
  cbn [Flipper.activated Flipper.angle Flipper.pivot Flipper.is_left].
  rewrite isclose_same. reflexivity.
Qed.

Lemma left_flipper_far f b :
  Vector2.x (Flipper.pivot f) = 270 ->
  402 <= Vector2.x (Ball.position b) ->
  Flipper.collide f b = Some (false, b).
Proof.
  intros Hp Hx. apply flipper_collide_far.
  pose proof (nearest_box f b) as (Hbx & _ & _).
  pose proof (length_ge_components
                (Vector2.sub (Ball.position b) (nearest_on_segment f b)))
    as [Hc _].
  fold (gap f b) in Hc. cbn [Vector2.sub Vector2.x] in Hc.
  pose proof (Rle_abs (Vector2.x (Ball.position b)
                       - Vector2.x (nearest_on_segment f b))) as Ha.
  unfold BALL_RADIUS, FLIPPER_WIDTH, FLIPPER_LENGTH in *. lra.
Qed.

Lemma rest_heading_down :
  0 <= Vector2.y (heading (right_flipper init)).
Proof.
  unfold heading. cbn. unfold FLIPPER_REST_ANGLE, radians.
  replace (-22 * PI / 180) with (- (22 * PI / 180)) by lra.
  rewrite sin_neg.
  pose proof PI_gt_3. pose proof PI_4.
  assert (0 <= sin (22 * PI / 180)) by (apply sin_ge_0; lra).
  lra.
Qed.

Lemma right_flipper_far f b :
  Flipper.pivot f = Vector2.mk 530 820 ->
  0 <= Vector2.y (heading f) ->
  661 < Vector2.x (Ball.position b) \/ Vector2.y (Ball.position b) < 799 ->
  Flipper.collide f b = Some (false, b).
Proof.
  intros Hp Hdown H. apply flipper_collide_far.
  pose proof (nearest_box f b) as (Hbx & _ & Hby).
  specialize (Hby Hdown). rewrite Hp in Hbx, Hby.
  cbn [Vector2.x Vector2.y] in Hbx, Hby.
  pose proof (length_ge_components
                (Vector2.sub (Ball.position b) (nearest_on_segment f b)))
    as [Hcx Hcy].
  fold (gap f b) in Hcx, Hcy.
  cbn [Vector2.sub Vector2.x Vector2.y] in Hcx, Hcy.
  unfold BALL_RADIUS, FLIPPER_WIDTH, FLIPPER_LENGTH in *.
  destruct H as [H|H].
  - pose proof (Rle_abs (Vector2.x (Ball.position b)
                         - Vector2.x (nearest_on_segment f b))).
    lra.
  - pose proof (Rle_abs (- (Vector2.y (Ball.position b)
                            - Vector2.y (nearest_on_segment f b)))) as Ha.
    rewrite Rabs_Ropp in Ha. lra.
Qed.

Lemma right_flipper_rest_far b :
  661 < Vector2.x (Ball.position b) \/ Vector2.y (Ball.position b) < 799 ->
  Flipper.collide (right_flipper init) b = Some (false, b).
Proof.
  apply right_flipper_far; [reflexivity | exact rest_heading_down].
Qed.

Lemma bumpers_low :
  Forall (fun bumper => Vector2.y (Bumper.position bumper) <= 560)
         _create_bumpers.
Proof. unfold _create_bumpers. cbn. repeat constructor; cbn; lra. Qed.

Lemma bumper_step_far bumper b g :
  ball g = Some b ->
  Vector2.y (Bumper.position bumper) <= 560 ->
  600 < Vector2.y (Ball.position b) ->
  bumper_step bumper g = Ok tt g.
Proof.
  intros Hb Hlow Hy.
  assert (Hfar : BUMPER_RADIUS + BALL_RADIUS < distance_to bumper b).
  { pose proof (length_ge_components
                  (Vector2.sub (Ball.position b) (Bumper.position bumper)))
      as [_ Hc].
    fold (distance_to bumper b) in Hc. cbn [Vector2.sub Vector2.y] in Hc.
    pose proof (Rle_abs (Vector2.y (Ball.position b)
                         - Vector2.y (Bumper.position bumper))).
    unfold BUMPER_RADIUS, BALL_RADIUS. lra. }
  unfold bumper_step, bind, call_collide.
  rewrite Hb, (bumper_out_of_range bumper b Hfar).
  rewrite (with_ball_same g b Hb). reflexivity.
Qed.

Lemma bumper_loop_far l b g :
  ball g = Some b ->
  Forall (fun bumper => Vector2.y (Bumper.position bumper) <= 560) l ->
  600 < Vector2.y (Ball.position b) ->
  for_each l bumper_step g = Ok tt g.
Proof.
  intros Hb Hl Hy. induction Hl as [|bumper l Hlow _ IH]; cbn.
  - reflexivity.
  - unfold bind. rewrite (bumper_step_far bumper b g Hb Hlow Hy). exact IH.
Qed.

(** The flipper loop, unrolled. *)
Lemma flipper_pass_eval g b :
  ball g = Some b ->
  flipper_pass g
  = match Flipper.collide (left_flipper g) b with
    | None => Raise ValueError g
    | Some (_, b1) =>
        match Flipper.collide (right_flipper g) b1 with
        | None => Raise ValueError (with_ball (Some b1) g)
        | Some (_, b2) => Ok tt (with_ball (Some b2) g)
        end
    end.
Proof.
  intros Hb. unfold flipper_pass. cbn [for_each].
  unfold bind, call_collide, ret. rewrite Hb.
  destruct (Flipper.collide (left_flipper g) b) as [[h1 b1]|]; [|reflexivity].
  cbn [ball with_ball right_flipper].
  destruct (Flipper.collide (right_flipper g) b1) as [[h2 b2]|]; reflexivity.
Qed.

Lemma collisions_clear b :
  clear b -> _handle_collisions (in_flight b) = Ok tt (in_flight b).
Proof.
  intros (_ & Hy & Hx & Hr & _).
  unfold _handle_collisions.
  change (ball (in_flight b)) with (Some b). cbv iota.
  unfold bind at 1.
  rewrite (flipper_pass_eval (in_flight b) b eq_refl).
  change (left_flipper (in_flight b)) with (left_flipper init).
  change (right_flipper (in_flight b)) with (right_flipper init).
  rewrite (left_flipper_far (left_flipper init) b eq_refl Hx).
  rewrite (right_flipper_rest_far b Hr).
  change (with_ball (Some b) (in_flight b)) with (in_flight b).
  unfold bumper_pass.
  apply (bumper_loop_far _ b); [reflexivity | exact bumpers_low | exact Hy].
Qed.

Lemma update_eval keys dt g b :
  ball g = Some b ->
  update keys dt g
  = (_handle_collisions ;; drain)
      (with_ball (Some (Ball.update b dt))
         (with_flippers
            (Flipper.update
               (Flipper.toggle (left_flipper g) (keys K_LEFT || keys K_a)) dt)
            (Flipper.update
               (Flipper.toggle (right_flipper g) (keys K_RIGHT || keys K_d)) dt)
            g)).
Proof.
  intros Hb. unfold update. cbn [ball with_flippers]. rewrite Hb. reflexivity.
Qed.

Lemma update_clear b dt :
  clear (Ball.integrate b dt) ->
  update no_keys dt (in_flight b) = Ok tt (in_flight (Ball.integrate b dt)).
Proof.
  intros Hc. rewrite (update_eval no_keys dt (in_flight b) b eq_refl).
  change (no_keys K_LEFT || no_keys K_a) with false.
  change (no_keys K_RIGHT || no_keys K_d) with false.
  change (left_flipper (in_flight b))
    with (Flipper.mk (Vector2.mk 270 820) true FLIPPER_REST_ANGLE false).
  change (right_flipper (in_flight b))
    with (Flipper.mk (Vector2.mk 530 820) false FLIPPER_REST_ANGLE false).
  rewrite !rest_flipper_stays.
  unfold Ball.update. rewrite (handle_walls_clear _ (proj1 Hc)).
  change (with_ball _ _) with (in_flight (Ball.integrate b dt)).
  unfold bind. rewrite (collisions_clear _ Hc).
  unfold drain. change (ball (in_flight (Ball.integrate b dt)))
    with (Some (Ball.integrate b dt)). cbv iota.
  destruct Hc as (_ & _ & _ & _ & Hd).
  apply Rgtb_false in Hd. rewrite Hd. reflexivity.
Qed.

Lemma integrate_flying x y u v dt x' y' v' :
  v' = v + GRAVITY * dt -> x' = x + u * dt -> y' = y + v' * dt ->
  Ball.integrate (flying x y u v) dt = flying x' y' u v'.
Proof.
  intros -> -> ->. unfold Ball.integrate, flying. cbn. reflexivity.
Qed.

Lemma frame_flying x y u v dt x' y' v' :
  v' = v + GRAVITY * dt -> x' = x + u * dt -> y' = y + v' * dt ->
  clear (flying x' y' u v') ->
  frame dt [] no_keys true (in_flight (flying x y u v))
  = Ok true (in_flight (flying x' y' u v')).
Proof.
  intros Hv Hx Hy Hc.
  rewrite <- (integrate_flying x y u v dt x' y' v' Hv Hx Hy) in *.
  unfold frame, bind. cbn [handle_events]. unfold ret.
  rewrite (update_clear _ dt Hc). reflexivity.
Qed.

Lemma play_ok dt events keys rest g g' :
  frame dt events keys true g = Ok true g' ->
  play (mkFrame dt events keys :: rest) true g = play rest true g'.
Proof.
  intros H. cbn [play frame_dt frame_events frame_keys].
  unfold bind. rewrite H. reflexivity.
Qed.

Lemma play_raise dt events keys rest g e g' :
  frame dt events keys true g = Raise e g' ->
  play (mkFrame dt events keys :: rest) true g = Raise e g'.
Proof.
  intros H. cbn [play frame_dt frame_events frame_keys].
  unfold bind. rewrite H. reflexivity.
Qed.

Ltac flight :=
  unfold clear, no_wall_crossed, penetrates, flying, GRAVITY, BALL_RADIUS;
  cbn [Ball.position Ball.velocity Vector2.x Vector2.y];
  rewrite ?WIDTH_val, ?HEIGHT_val; lra.

(** The launch and the first 125 ms of flight. *)
Lemma launch_frame :
  frame (125 / 1000) [(KEYDOWN K_SPACE, -75)] no_keys true init
  = Ok true (in_flight (flying (5765 / 8) (13505 / 16) (-75) (-1215 / 2))).
Proof.
  assert (Hl : handle_events [(KEYDOWN K_SPACE, -75)] true init
               = Ok true (in_flight (flying 730 920 (-75) (-720)))).
  { assert (Hb : Ball.mk 0 (Vector2.mk (IZR WIDTH - 70) (IZR HEIGHT - 80))
                           (Vector2.mk (-75) (- LAUNCH_FORCE))
                 = flying 730 920 (-75) (-720)).
    { unfold flying. rewrite WIDTH_val, HEIGHT_val. unfold LAUNCH_FORCE.
      f_equal; apply vec_eq; cbn; lra. }
    rewrite <- Hb. reflexivity. }
  unfold frame. unfold bind at 1. rewrite Hl.
  pose proof (frame_flying 730 920 (-75) (-720) (125 / 1000)
                (5765 / 8) (13505 / 16) (-1215 / 2)) as Hf.
  unfold frame, bind in Hf. cbn [handle_events] in Hf. unfold ret in Hf.
  apply Hf; flight.
Qed.

(** Held for 55 ms from rest, a flipper is at angle 0. *)
Lemma active_flipper_swings pivot side :
  Flipper.update
    (Flipper.toggle (Flipper.mk pivot side FLIPPER_REST_ANGLE false) true)
    (55 / 1000)
  = Flipper.mk pivot side 0 true.
Proof.
  pose proof PI_gt_3 as Hpi. pose proof PI_4 as Hpi4.
  unfold Flipper.update, Flipper.toggle, Flipper.target_of.
  cbn [Flipper.activated Flipper.angle Flipper.pivot Flipper.is_left].
  assert (Hup : Rgtb FLIPPER_ANGLE FLIPPER_REST_ANGLE = true)
    by (apply Rgtb_true; generalize rest_lt_active; lra).
  rewrite Hup.
  assert (Hfar : isclose FLIPPER_REST_ANGLE FLIPPER_ANGLE 1e-3 = false).
  { unfold isclose.
    destruct (Req_dec_T FLIPPER_REST_ANGLE FLIPPER_ANGLE) as [E|_];
      [generalize rest_lt_active; lra|].
    unfold FLIPPER_REST_ANGLE, FLIPPER_ANGLE, radians.
    rewrite (Rabs_pos_eq (25 * PI / 180 - -22 * PI / 180)) by lra.
    rewrite (Rabs_pos_eq (1e-9 * (25 * PI / 180))) by lra.
    rewrite (Rabs_left1 (1e-9 * (-22 * PI / 180))) by lra.
    assert (E1 : forall a c, c < a -> Rleb a c = false)
      by (intros; now apply Rleb_false).
    rewrite !E1 by lra. reflexivity. }
  rewrite Hfar.
  assert (Ha : FLIPPER_REST_ANGLE + 1 * FLIPPER_SPEED * (55 / 1000) = 0)
    by (unfold FLIPPER_REST_ANGLE, FLIPPER_SPEED, radians; lra).
  rewrite Ha.
  assert (H1 : Rgtb 0 FLIPPER_ANGLE = false)
    by (apply Rgtb_false; unfold FLIPPER_ANGLE, radians; lra).
  assert (H2 : Rltb 1 0 = false) by (apply Rltb_false; lra).
  rewrite H1, H2, andb_false_r. reflexivity.
Qed.

(** Released at angle 0 for more than 55 ms, it is back at rest. *)
Lemma released_flipper_returns pivot side dt :
  55 / 1000 < dt ->
  Flipper.update (Flipper.toggle (Flipper.mk pivot side 0 true) false) dt
  = Flipper.mk pivot side FLIPPER_REST_ANGLE false.
Proof.
  intros Hdt. pose proof PI_gt_3 as Hpi. pose proof PI_4 as Hpi4.
  unfold Flipper.update, Flipper.toggle, Flipper.target_of.
  cbn [Flipper.activated Flipper.angle Flipper.pivot Flipper.is_left].
  assert (Hrest : FLIPPER_REST_ANGLE = - (22 * PI / 180))
    by (unfold FLIPPER_REST_ANGLE, radians; lra).
  assert (Hdown : Rgtb FLIPPER_REST_ANGLE 0 = false)
    by (apply Rgtb_false; lra).
  rewrite Hdown.
  assert (Hfar : isclose 0 FLIPPER_REST_ANGLE 1e-3 = false).
  { unfold isclose.
    destruct (Req_dec_T 0 FLIPPER_REST_ANGLE) as [E|_]; [lra|].
    rewrite Hrest.
    rewrite (Rabs_left1 (- (22 * PI / 180) - 0)) by lra.
    rewrite (Rabs_left1 (1e-9 * - (22 * PI / 180))) by lra.
    rewrite (Rabs_pos_eq (1e-9 * 0)) by lra.
    assert (E1 : forall a c, c < a -> Rleb a c = false)
      by (intros; now apply Rleb_false).
    rewrite !E1 by lra. reflexivity. }
  rewrite Hfar.
  assert (H1 : Rltb (-1) 0 = true) by (apply Rltb_true; lra).
  assert (H2 : Rltb (0 + -1 * FLIPPER_SPEED * dt) FLIPPER_REST_ANGLE = true).
  { apply Rltb_true. rewrite Hrest. unfold FLIPPER_SPEED, radians.
    assert (Hs : 400 * PI / 180 * (55 / 1000) < 400 * PI / 180 * dt)
      by (apply Rmult_lt_compat_l; lra).
    lra. }
  rewrite H1, H2, orb_true_r. reflexivity.
Qed.

(** The unit vector of a vector that points straight up the screen. *)
Lemma normalize_upwards d :
  d < 0 -> Vector2.normalize (Vector2.mk 0 d) = Some (Vector2.mk 0 (-1)).
Proof.
  intros Hd.
  assert (Hl : Vector2.length (Vector2.mk 0 d) = - d).
  { unfold Vector2.length, Vector2.dot. cbn [Vector2.x Vector2.y].
    replace (0 * 0 + d * d) with ((- d) * (- d)) by ring.
    apply sqrt_square. lra. }
  unfold Vector2.normalize. rewrite Hl.
  destruct (Req_dec_T (- d) 0) as [E|_]; [lra|].
  f_equal. apply vec_eq; cbn [Vector2.x Vector2.y]; field; lra.
Qed.

(** The point of a flipper at angle 0 nearest to a ball over or under it. *)
Lemma flat_nearest pivot side active b :
  Vector2.x pivot <= Vector2.x (Ball.position b)
                  <= Vector2.x pivot + FLIPPER_LENGTH ->
  nearest_on_segment (Flipper.mk pivot side 0 active) b
  = Vector2.mk (Vector2.x (Ball.position b)) (Vector2.y pivot).
Proof.
  intros Hx. unfold nearest_on_segment, projection, heading.
  cbn [Flipper.pivot Flipper.angle Flipper.is_left].
  rewrite cos_0, sin_0.
  assert (Hd : Vector2.dot (Vector2.sub (Ball.position b) pivot)
                 (Vector2.mk 1 (if side then 0 else - 0))
               = Vector2.x (Ball.position b) - Vector2.x pivot)
    by (unfold Vector2.dot; destruct side; cbn; ring).
  rewrite Hd. rewrite Rmin_right by lra. rewrite Rmax_right by lra.
  apply vec_eq; destruct side; cbn; ring.
Qed.

(** The frame of the bounce: the right flipper reaches angle 0 under the
    ball, which leaves 4 higher with its vertical velocity turned round
    and raised by 120. *)
Lemma bounce_frame :
  frame (55 / 1000) [] right_held true
        (in_flight (flying (5105 / 8) (12497 / 16) (-75) (765 / 2)))
  = Ok true (swung (flying 634 (320329 / 400) (-75) (-552))).
Proof.
  set (b := flying 634 (321929 / 400) (-75) 432).
  set (b' := flying 634 (320329 / 400) (-75) (-552)).
  set (f := Flipper.mk (Vector2.mk 530 820) false 0 true).
  assert (Hnear : nearest_on_segment f b = Vector2.mk 634 820).
  { unfold f. rewrite flat_nearest; [reflexivity|].
    unfold b, flying, FLIPPER_LENGTH. cbn. lra. }
  assert (Hup : Vector2.sub (Ball.position b) (nearest_on_segment f b)
                = Vector2.mk 0 (- (6071 / 400))).
  { rewrite Hnear. apply vec_eq; unfold b, flying; cbn; lra. }
  assert (Hhit : Flipper.collide f b = Some (true, b')).
  { assert (Hne : Ball.position b <> nearest_on_segment f b).
    { rewrite Hnear. unfold b, flying. cbn. intros E.
      apply (f_equal Vector2.y) in E. cbn in E. lra. }
    assert (Hg : gap f b <= BALL_RADIUS + FLIPPER_WIDTH / 2).
    { unfold gap. rewrite Hup.
      unfold Vector2.length, Vector2.dot. cbn [Vector2.x Vector2.y].
      replace (0 * 0 + - (6071 / 400) * - (6071 / 400))
        with ((6071 / 400) * (6071 / 400)) by ring.
      rewrite sqrt_square by lra. unfold BALL_RADIUS, FLIPPER_WIDTH. lra. }
    destruct (flipper_collide_near f b Hne Hg) as (normal & Hn & _ & Hc).
    rewrite Hup, normalize_upwards in Hn by lra.
    injection Hn as <-. rewrite Hc. do 2 f_equal.
    unfold kicked, mirror, Vector2.dot, b, b', f, flying.
    cbn [Ball.ident Ball.position Ball.velocity Flipper.is_left].
    f_equal; apply vec_eq; cbn; lra. }
  unfold frame, bind. cbn [handle_events]. unfold ret.
  rewrite (update_eval right_held (55 / 1000)
             (in_flight (flying (5105 / 8) (12497 / 16) (-75) (765 / 2)))
             (flying (5105 / 8) (12497 / 16) (-75) (765 / 2)) eq_refl).
  change (right_held K_LEFT || right_held K_a) with false.
  change (right_held K_RIGHT || right_held K_d) with true.
  change (left_flipper (in_flight _))
    with (Flipper.mk (Vector2.mk 270 820) true FLIPPER_REST_ANGLE false).
  change (right_flipper (in_flight _))
    with (Flipper.mk (Vector2.mk 530 820) false FLIPPER_REST_ANGLE false).
  rewrite rest_flipper_stays, active_flipper_swings.
  unfold Ball.update.
  rewrite (integrate_flying (5105 / 8) (12497 / 16) (-75) (765 / 2)
             (55 / 1000) 634 (321929 / 400) 432)
    by (unfold GRAVITY; lra).
  rewrite handle_walls_clear by flight.
  change (with_ball _ _) with (swung b).
  unfold bind, _handle_collisions.
  change (ball (swung b)) with (Some b). cbv iota. unfold bind.
  rewrite (flipper_pass_eval (swung b) b eq_refl).
  rewrite (left_flipper_far (left_flipper (swung b)) b eq_refl)
    by (unfold b, flying; cbn; lra).
  change (right_flipper (swung b)) with f. rewrite Hhit.
  change (with_ball (Some b') (swung b)) with (swung b').
  unfold bumper_pass.
  rewrite (bumper_loop_far (bumpers (swung b')) b' (swung b') eq_refl
             bumpers_low)
    by (unfold b', flying; cbn; lra).
  unfold drain. change (ball (swung b')) with (Some b'). cbv iota.
  assert (Hd : Rgtb (Vector2.y (Ball.position b') - BALL_RADIUS)
                    (IZR HEIGHT + 40) = false).
  { apply Rgtb_false. rewrite HEIGHT_val.
    unfold b', flying, BALL_RADIUS. cbn. lra. }
  rewrite Hd. reflexivity.
Qed.

(** The frame after the bounce: with the key up the flipper is back at
    rest before the collision tests, and the ball flies free. *)
Lemma return_frame x y u v dt x' y' v' :
  55 / 1000 < dt ->
  v' = v + GRAVITY * dt -> x' = x + u * dt -> y' = y + v' * dt ->
  clear (flying x' y' u v') ->
  frame dt [] no_keys true (swung (flying x y u v))
  = Ok true (in_flight (flying x' y' u v')).
Proof.
  intros Hdt Hv Hx Hy Hc.
  rewrite <- (frame_flying x y u v dt x' y' v' Hv Hx Hy Hc).
  unfold frame, bind. cbn [handle_events]. unfold ret.
  rewrite (update_eval no_keys dt (swung (flying x y u v)) (flying x y u v)
             eq_refl).
  rewrite (update_eval no_keys dt (in_flight (flying x y u v))
             (flying x y u v) eq_refl).
  change (no_keys K_LEFT || no_keys K_a) with false.
  change (no_keys K_RIGHT || no_keys K_d) with false.
  change (left_flipper (swung _))
    with (Flipper.mk (Vector2.mk 270 820) true FLIPPER_REST_ANGLE false).
  change (right_flipper (swung _))
    with (Flipper.mk (Vector2.mk 530 820) false 0 true).
  change (left_flipper (in_flight _))
    with (Flipper.mk (Vector2.mk 270 820) true FLIPPER_REST_ANGLE false).
  change (right_flipper (in_flight _))
    with (Flipper.mk (Vector2.mk 530 820) false FLIPPER_REST_ANGLE false).
  rewrite !rest_flipper_stays, (released_flipper_returns _ _ dt Hdt).
  reflexivity.
Qed.

(** The last frame: the right flipper reaches angle 0 again and the ball
    comes to rest on its axis. *)
Lemma crash_frame :
  let b := flying (4385 / 8) 820 (-75) (957 / 2) in
  frame (55 / 1000) [] right_held true
        (in_flight (flying (2209 / 4) (317473 / 400) (-75) 429))
  = Raise ValueError (swung b)
  /\ Ball.position b = nearest_on_segment (right_flipper (swung b)) b.
Proof.
  intros b.
  assert (Haxis : Ball.position b
                  = nearest_on_segment (right_flipper (swung b)) b).
  { change (right_flipper (swung b))
      with (Flipper.mk (Vector2.mk 530 820) false 0 true).
    rewrite flat_nearest; [reflexivity|].
    unfold b, flying, FLIPPER_LENGTH. cbn. lra. }
  split; [|exact Haxis].
  unfold frame, bind. cbn [handle_events]. unfold ret.
  rewrite (update_eval right_held (55 / 1000)
             (in_flight (flying (2209 / 4) (317473 / 400) (-75) 429))
             (flying (2209 / 4) (317473 / 400) (-75) 429) eq_refl).
  change (right_held K_LEFT || right_held K_a) with false.
  change (right_held K_RIGHT || right_held K_d) with true.
  change (left_flipper (in_flight _))
    with (Flipper.mk (Vector2.mk 270 820) true FLIPPER_REST_ANGLE false).
  change (right_flipper (in_flight _))
    with (Flipper.mk (Vector2.mk 530 820) false FLIPPER_REST_ANGLE false).
  rewrite rest_flipper_stays, active_flipper_swings.
  unfold Ball.update.
  rewrite (integrate_flying (2209 / 4) (317473 / 400) (-75) 429 (55 / 1000)
             (4385 / 8) 820 (957 / 2))
    by (unfold GRAVITY; lra).
  rewrite handle_walls_clear by flight.
  change (with_ball _ _) with (swung b). fold b.
  unfold bind, _handle_collisions.
  change (ball (swung b)) with (Some b). cbv iota. unfold bind.
  rewrite (flipper_pass_eval (swung b) b eq_refl).
  rewrite (left_flipper_far (left_flipper (swung b)) b eq_refl)
    by (unfold b, flying; cbn; lra).
  apply flipper_collide_on_axis in Haxis. rewrite Haxis.
  reflexivity.
Qed.

(** C3, as worded: the session [crash_frames] uses admissible inputs only,
    every elapsed time in it a whole number of milliseconds, and ends in
    the [ValueError] of a normalisation, raised in its last frame while
    the ball's centre is the nearest point of the right flipper. *)
Lemma normalization_can_raise :
  admissible crash_frames
  /\ clocked crash_frames
  /\ (exists g b,
        play crash_frames true init = Raise ValueError g
        /\ ball g = Some b
        /\ Ball.position b = nearest_on_segment (right_flipper g) b
        /\ Flipper.collide (right_flipper g) b = None)
  /\ ~ normalizations_never_raise.
Proof.
  assert (Hadm : admissible crash_frames).
  { unfold admissible, crash_frames.
    apply Forall_cons;
      [split; [cbn; lra
              | apply Forall_cons; [cbn; lra | apply Forall_nil]]|].
    repeat (apply Forall_cons; [split; [cbn; lra | apply Forall_nil]|]).
    apply Forall_nil. }
  assert (Hclock : clocked crash_frames).
  { assert (Hms : forall k events keys,
               (16 <=? k)%Z = true ->
               exists k' : Z,
                 (16 <= k')%Z
                 /\ frame_dt (mkFrame (IZR k / 1000) events keys)
                    = IZR k' / 1000).
    { intros k events keys Hk. exists k. split; [|reflexivity].
      now apply Z.leb_le. }
    unfold clocked, crash_frames.
    repeat (apply Forall_cons; [apply Hms; reflexivity|]).
    apply Forall_nil. }
  destruct crash_frame as [Hcrash Haxis].
  assert (Hplay : play crash_frames true init
                  = Raise ValueError
                      (swung (flying (4385 / 8) 820 (-75) (957 / 2)))).
  { unfold crash_frames.
    rewrite (play_ok _ _ _ _ _ _ launch_frame).
    rewrite (play_ok _ _ _ _ _
               (in_flight (flying (2845 / 4) (12515 / 16) (-75) (-495))))
      by (apply frame_flying; flight).
    rewrite (play_ok _ _ _ _ _
               (in_flight (flying (5615 / 8) (5875 / 8) (-75) (-765 / 2))))
      by (apply frame_flying; flight).
    rewrite (play_ok _ _ _ _ _
               (in_flight (flying (1385 / 2) (5605 / 8) (-75) (-270))))
      by (apply frame_flying; flight).
    rewrite (play_ok _ _ _ _ _
               (in_flight (flying (5465 / 8) (10895 / 16) (-75) (-315 / 2))))
      by (apply frame_flying; flight).
    rewrite (play_ok _ _ _ _ _
               (in_flight (flying (2695 / 4) (10805 / 16) (-75) (-45))))
      by (apply frame_flying; flight).
    rewrite (play_ok _ _ _ _ _
               (in_flight (flying (5315 / 8) (2735 / 4) (-75) (135 / 2))))
      by (apply frame_flying; flight).
    rewrite (play_ok _ _ _ _ _
               (in_flight (flying 655 (2825 / 4) (-75) 180)))
      by (apply frame_flying; flight).
    rewrite (play_ok _ _ _ _ _
               (in_flight (flying (5165 / 8) (11885 / 16) (-75) (585 / 2))))
      by (apply frame_flying; flight).
    rewrite (play_ok _ _ _ _ _
               (in_flight (flying (5105 / 8) (12497 / 16) (-75) (765 / 2))))
      by (apply frame_flying; flight).
    rewrite (play_ok _ _ _ _ _ _ bounce_frame).
    rewrite (play_ok _ _ _ _ _
               (in_flight (flying (4997 / 8) (149177 / 200) (-75) (-879 / 2))))
      by (apply return_frame; flight).
    rewrite (play_ok _ _ _ _ _
               (in_flight (flying (2461 / 4) (70501 / 100) (-75) (-327))))
      by (apply frame_flying; flight).
    rewrite (play_ok _ _ _ _ _
               (in_flight (flying (4847 / 8) (271279 / 400) (-75) (-429 / 2))))
      by (apply frame_flying; flight).
    rewrite (play_ok _ _ _ _ _
               (in_flight (flying (1193 / 2) (266179 / 400) (-75) (-102))))
      by (apply frame_flying; flight).
    rewrite (play_ok _ _ _ _ _
               (in_flight (flying (4697 / 8) (16669 / 25) (-75) (21 / 2))))
      by (apply frame_flying; flight).
    rewrite (play_ok _ _ _ _ _
               (in_flight (flying (2311 / 4) (136427 / 200) (-75) 123)))
      by (apply frame_flying; flight).
    rewrite (play_ok _ _ _ _ _
               (in_flight (flying (4547 / 8) (284629 / 400) (-75) (471 / 2))))
      by (apply frame_flying; flight).
    rewrite (play_ok _ _ _ _ _
               (in_flight (flying 559 (302029 / 400) (-75) 348)))
      by (apply frame_flying; flight).
    rewrite (play_ok _ _ _ _ _
               (in_flight (flying (2209 / 4) (317473 / 400) (-75) 429)))
      by (apply frame_flying; flight).
    apply play_raise. exact Hcrash. }
  split; [exact Hadm|]. split; [exact Hclock|]. split.
  - eexists _, _. split; [exact Hplay|]. split; [reflexivity|].
    split; [exact Haxis|]. now apply flipper_collide_on_axis.
  - intros Hsafe. exact (Hsafe _ _ Hadm Hplay).
Qed.

(** * Further properties of the code *)

(** ** The tip of a flipper *)

Lemma tip_offset f :
  Vector2.sub (Flipper.get_tip f) (Flipper.pivot f)
  = Vector2.scale (heading f) FLIPPER_LENGTH.
Proof.
  unfold Flipper.get_tip. rewrite add_sub_cancel.
  unfold heading. destruct (Flipper.is_left f); cbn;
    apply vec_eq; cbn; ring.
Qed.

(** X1. The tip returned by [get_tip] is exactly [FLIPPER_LENGTH] from the
    pivot whatever the angle, and the tips of a left and a right flipper
    with the same pivot and angle are mirror images in the horizontal line
    through the pivot. *)
Theorem tip_geometry :
  forall (pivot : Vector2.t) (a : R) (on on' : bool),
    let l := Flipper.mk pivot true a on in
    let r := Flipper.mk pivot false a on' in
    Vector2.length (Vector2.sub (Flipper.get_tip l) pivot) = FLIPPER_LENGTH
    /\ Vector2.length (Vector2.sub (Flipper.get_tip r) pivot) = FLIPPER_LENGTH
    /\ Vector2.x (Flipper.get_tip r) = Vector2.x (Flipper.get_tip l)
    /\ Vector2.y (Flipper.get_tip r) - Vector2.y pivot
       = - (Vector2.y (Flipper.get_tip l) - Vector2.y pivot).
Proof.
  intros pivot a on on' l r.
  assert (Hlen : forall f, Vector2.length
                             (Vector2.sub (Flipper.get_tip f) (Flipper.pivot f))
                           = FLIPPER_LENGTH).
  { intros f. rewrite tip_offset. apply length_scale_unit;
      [apply heading_unit | unfold FLIPPER_LENGTH; lra]. }
  split; [exact (Hlen l)|]. split; [exact (Hlen r)|].
  unfold l, r, Flipper.get_tip. cbn. split; ring.
Qed.

(** ** The nearest point of the flipper *)

Lemma gap_sqr f b s :
  let p := Vector2.sub (Ball.position b) (Flipper.pivot f) in
  let q := Vector2.add (Flipper.pivot f) (Vector2.scale (heading f) s) in
  Vector2.dot (Vector2.sub (Ball.position b) q)
              (Vector2.sub (Ball.position b) q)
  = Vector2.dot p p - 2 * s * Vector2.dot p (heading f) + s * s.
Proof.
  cbv zeta. pose proof (heading_unit f) as Hu.
  unfold Vector2.dot in *. cbn [Vector2.sub Vector2.add Vector2.scale
                                 Vector2.x Vector2.y] in *.
  set (hx := Vector2.x (heading f)) in *.
  set (hy := Vector2.y (heading f)) in *.
  set (px := Vector2.x (Ball.position b)).
  set (py := Vector2.y (Ball.position b)).
  set (cx := Vector2.x (Flipper.pivot f)).
  set (cy := Vector2.y (Flipper.pivot f)).
  replace ((px - (cx + hx * s)) * (px - (cx + hx * s))
           + (py - (cy + hy * s)) * (py - (cy + hy * s)))
    with ((px - cx) * (px - cx) + (py - cy) * (py - cy)
          - 2 * s * ((px - cx) * hx + (py - cy) * hy)
          + s * s * (hx * hx + hy * hy)) by ring.
  rewrite Hu. ring.
Qed.

Lemma nearest_is_nearest f b s :
  0 <= s <= FLIPPER_LENGTH ->
  gap f b
  <= Vector2.length
       (Vector2.sub (Ball.position b)
          (Vector2.add (Flipper.pivot f) (Vector2.scale (heading f) s))).
Proof.
  intros Hs. unfold gap, Vector2.length. apply sqrt_le_1_alt.
  unfold nearest_on_segment. rewrite !gap_sqr.
  unfold projection.
  set (d := Vector2.dot (Vector2.sub (Ball.position b) (Flipper.pivot f))
                        (heading f)).
  set (pp := Vector2.dot (Vector2.sub (Ball.position b) (Flipper.pivot f))
                         (Vector2.sub (Ball.position b) (Flipper.pivot f))).
  unfold FLIPPER_LENGTH in *.
  destruct (Rle_dec d 0) as [Hd|Hd].
  - rewrite Rmin_right by lra. rewrite Rmax_left by lra. nra.
  - destruct (Rle_dec d 110) as [Hd'|Hd'].
    + rewrite Rmin_right by lra. rewrite Rmax_right by lra.
      pose proof (Rle_0_sqr (s - d)) as Hsq. unfold Rsqr in Hsq. lra.
    + rewrite Rmin_left by lra. rewrite Rmax_right by lra.
      assert (Hm : 0 <= (110 - s) * (2 * d - 110 - s))
        by (apply Rmult_le_pos; lra).
      lra.
Qed.

(** X2. The point [Flipper.collide] measures the ball against lies on the
    pivot-to-tip segment and no point of that segment is nearer to the
    ball's centre: the contact test compares the distance from the ball to
    the segment. *)
Theorem closest_point_is_nearest :
  forall (f : Flipper.t) (b : Ball.t) (c : Vector2.t) (s : R),
    Flipper.closest_point f b = Some c ->
    0 <= s <= 1 ->
    (exists s0, 0 <= s0 <= 1 /\ c = on_segment f s0)
    /\ Vector2.length (Vector2.sub (Ball.position b) c)
       <= Vector2.length (Vector2.sub (Ball.position b) (on_segment f s)).
Proof.
  intros f b c s Hc Hs. rewrite closest_point_total in Hc.
  injection Hc as <-.
  assert (Hon : forall k, on_segment f k
                = Vector2.add (Flipper.pivot f)
                    (Vector2.scale (heading f) (FLIPPER_LENGTH * k))).
  { intros k. unfold on_segment. rewrite tip_offset.
    apply vec_eq; cbn; ring. }
  pose proof (projection_bounds f b) as Hp.
  split.
  - exists (projection f b / FLIPPER_LENGTH). unfold FLIPPER_LENGTH in *.
    split.
    + split.
      * apply Rmult_le_pos; lra.
      * apply (Rmult_le_reg_r 110); [lra|].
        replace (projection f b / 110 * 110) with (projection f b)
          by (field). lra.
    + rewrite Hon. unfold nearest_on_segment, FLIPPER_LENGTH.
      apply vec_eq; cbn; field.
  - rewrite Hon. apply nearest_is_nearest.
    unfold FLIPPER_LENGTH. nra.
Qed.

Lemma closest_point_is_nearest_witness :
  let f := left_flipper init in
  let b := flying 300 700 0 0 in
  Vector2.length (Vector2.sub (Ball.position b) (nearest_on_segment f b))
  <= Vector2.length (Vector2.sub (Ball.position b) (on_segment f (1 / 2))).
Proof.
  intros f b.
  refine (proj2 (closest_point_is_nearest f b (nearest_on_segment f b)
                   (1 / 2) (closest_point_total f b) _)).
  lra.
Defined.

(** ** Holding a flipper key *)









(** ** Walls, once more *)

Lemma walls_put_inside b :
  20 + BALL_RADIUS <= Vector2.x (Ball.position (Ball._handle_walls b))
                   <= IZR WIDTH - 20 - BALL_RADIUS
  /\ 20 + BALL_RADIUS <= Vector2.y (Ball.position (Ball._handle_walls b)).
Proof.
  destruct b as [i [px py] [vx vy]]. walls.
  destruct (Rltb (px - 12) 20) eqn:El;
    [apply Rltb_true in El | apply Rltb_false in El]; walls.
  - assert (Er : Rgtb (20 + 12 + 12) (800 - 20) = false)
      by (apply Rgtb_false; lra).
    rewrite Er. walls.
    destruct (Rltb (py - 12) 20) eqn:Et;
      [apply Rltb_true in Et | apply Rltb_false in Et]; walls; lra.
  - destruct (Rgtb (px + 12) (800 - 20)) eqn:Er;
      [apply Rgtb_true in Er | apply Rgtb_false in Er]; walls;
    (destruct (Rltb (py - 12) 20) eqn:Et;
      [apply Rltb_true in Et | apply Rltb_false in Et]); walls; lra.
Qed.

(** X4. [_handle_walls] leaves a ball that crosses no wall untouched, and
    applying it twice is the same as applying it once. *)
Theorem handle_walls_idempotent :
  forall b : Ball.t,
    Ball._handle_walls (Ball._handle_walls b) = Ball._handle_walls b
    /\ (no_wall_crossed b -> Ball._handle_walls b = b).
Proof.
  intros b. split; [|apply handle_walls_clear].
  apply handle_walls_clear.
  pose proof (walls_put_inside b) as H.
  unfold no_wall_crossed, penetrates. unfold BALL_RADIUS in *.
  rewrite WIDTH_val in *. repeat split; lra.
Qed.

(** ** What a contact does to the ball *)

Lemma dot_mirror_normal v n :
  Vector2.dot n n = 1 ->
  Vector2.dot (mirror v n) n = - Vector2.dot v n
  /\ Vector2.dot (mirror v n) (perp n) = Vector2.dot v (perp n).
Proof.
  intros H. unfold mirror, perp, Vector2.dot in *. cbn.
  set (a := Vector2.x n) in *. set (c := Vector2.y n) in *.
  set (p := Vector2.x v). set (q := Vector2.y v).
  split.
  - replace ((p - a * (2 * (p * a + q * c))) * a
             + (q - c * (2 * (p * a + q * c))) * c)
      with ((p * a + q * c) * (1 - 2 * (a * a + c * c))) by ring.
    rewrite H. ring.
  - ring.
Qed.

(** X5. A bumper in contact with a ball (centres apart, but by no more
    than the two radii) sends it off with its velocity component along
    the outward normal reversed and raised by [BUMPER_FORCE * 0.4], the
    component along the surface unchanged; a ball that was moving inwards
    thus leaves outwards at no less than that.  The ball it returns is the
    same ball, out of this bumper's range: a second call reports no
    contact and leaves it as it is. *)
Theorem bumper_contact_effect :
  forall (bumper : Bumper.t) (b : Ball.t),
    Ball.position b <> Bumper.position bumper ->
    distance_to bumper b <= BUMPER_RADIUS + BALL_RADIUS ->
    exists normal b',
      Vector2.normalize
        (Vector2.sub (Ball.position b) (Bumper.position bumper)) = Some normal
      /\ Bumper.collide bumper b = Some (true, b')
      /\ Ball.ident b' = Ball.ident b
      /\ Vector2.dot (Ball.velocity b') normal
         = BUMPER_FORCE * 0.4 - Vector2.dot (Ball.velocity b) normal
      /\ Vector2.dot (Ball.velocity b') (perp normal)
         = Vector2.dot (Ball.velocity b) (perp normal)
      /\ (Vector2.dot (Ball.velocity b) normal <= 0 ->
          BUMPER_FORCE * 0.4 <= Vector2.dot (Ball.velocity b') normal)
      /\ Bumper.collide bumper b' = Some (false, b').
Proof.
  intros bumper b Hne Hd.
  destruct (bumper_collide_near bumper b Hne Hd) as (normal & Hn & Hu & Hr).
  destruct (dot_mirror_normal (Ball.velocity b) normal Hu) as [Hm Hp].
  eexists normal, _. split; [exact Hn|]. split; [exact Hr|].
  cbn [Ball.ident Ball.velocity].
  assert (Hdot : Vector2.dot
                   (Vector2.add (mirror (Ball.velocity b) normal)
                      (Vector2.scale normal (BUMPER_FORCE * 0.4))) normal
                 = BUMPER_FORCE * 0.4 - Vector2.dot (Ball.velocity b) normal).
  { unfold Vector2.dot in *.
    cbn [Vector2.add Vector2.scale Vector2.x Vector2.y] in *.
    unfold BUMPER_FORCE. nra. }
  split; [reflexivity|]. split; [exact Hdot|]. split; [|split].
  - unfold Vector2.dot, perp in *.
    cbn [Vector2.add Vector2.scale Vector2.x Vector2.y] in *. lra.
  - intros Hin. rewrite Hdot. lra.
  - apply bumper_out_of_range. unfold distance_to. cbn [Ball.position].
    rewrite add_sub_cancel.
    rewrite length_scale_unit;
      [|exact Hu | unfold BUMPER_RADIUS, BALL_RADIUS; lra].
    lra.
Qed.

Lemma bumper_contact_effect_witness :
  let bumper := Bumper.mk (Vector2.mk 400 560) 250 in
  let b := flying 400 530 0 300 in
  exists normal b',
    Vector2.normalize
      (Vector2.sub (Ball.position b) (Bumper.position bumper)) = Some normal
    /\ Bumper.collide bumper b = Some (true, b')
    /\ Bumper.collide bumper b' = Some (false, b').
Proof.
  intros bumper b.
  assert (Hne : Ball.position b <> Bumper.position bumper).
  { unfold b, bumper, flying; cbn. intros H. injection H as H. lra. }
  assert (Hd : distance_to bumper b <= BUMPER_RADIUS + BALL_RADIUS).
  { unfold distance_to.
    pose proof (length_sqr (Vector2.sub (Ball.position b)
                                        (Bumper.position bumper))) as Hs.
    pose proof (length_nonneg (Vector2.sub (Ball.position b)
                                           (Bumper.position bumper))) as Hp.
    set (d := Vector2.length _) in *.
    unfold Vector2.dot, b, bumper, flying in Hs. cbn in Hs.
    unfold BUMPER_RADIUS, BALL_RADIUS. nra. }
  destruct (bumper_contact_effect bumper b Hne Hd)
    as (normal & b' & Hn & Hr & _ & _ & _ & _ & Hagain).
  exists normal, b'. repeat split; assumption.
Defined.

(** X6. A flipper in contact with a ball (centre off the nearest point of
    the segment, but within the ball radius plus half the flipper width)
    moves it 4 further from that point along the normal, and sends it off
    with the velocity component along the normal reversed and raised by
    120, the left flipper taking 60 off the vertical velocity on top; the
    ball returned is the same ball. *)
Theorem flipper_contact_effect :
  forall (f : Flipper.t) (b : Ball.t),
    Ball.position b <> nearest_on_segment f b ->
    gap f b <= BALL_RADIUS + FLIPPER_WIDTH / 2 ->
    exists normal b',
      Vector2.normalize
        (Vector2.sub (Ball.position b) (nearest_on_segment f b)) = Some normal
      /\ Flipper.collide f b = Some (true, b')
      /\ Ball.ident b' = Ball.ident b
      /\ Vector2.length
           (Vector2.sub (Ball.position b') (nearest_on_segment f b))
         = gap f b + 4
      /\ Vector2.dot (Ball.velocity b') normal
         = 120 - Vector2.dot (Ball.velocity b) normal
           - (if Flipper.is_left f then 60 else 0) * Vector2.y normal
      /\ Vector2.dot (Ball.velocity b') (perp normal)
         = Vector2.dot (Ball.velocity b) (perp normal)
           - (if Flipper.is_left f then 60 else 0) * Vector2.x normal.
Proof.
  intros f b Hne Hg.
  destruct (flipper_collide_near f b Hne Hg) as (normal & Hn & Hu & Hr).
  destruct (dot_mirror_normal (Ball.velocity b) normal Hu) as [Hm Hp].
  destruct (normalize_Some _ _ Hn) as (Hpos & _ & _ & Hsc).
  fold (gap f b) in Hpos, Hsc.
  exists normal, (kicked f b normal).
  split; [exact Hn|]. split; [exact Hr|].
  unfold kicked. cbn [Ball.ident Ball.velocity Ball.position].
  split; [reflexivity|]. split; [|split].
  - replace (Vector2.sub
               (Vector2.add (Ball.position b) (Vector2.scale normal 4))
               (nearest_on_segment f b))
      with (Vector2.scale normal (gap f b + 4)).
    + apply length_scale_unit; [exact Hu | lra].
    + apply (f_equal Vector2.x) in Hsc as Hx.
      apply (f_equal Vector2.y) in Hsc as Hy.
      cbn in Hx, Hy. apply vec_eq; cbn; lra.
  - unfold Vector2.dot in *.
    cbn [Vector2.add Vector2.scale Vector2.x Vector2.y] in *.
    set (k := if Flipper.is_left f then 60 else 0). nra.
  - unfold Vector2.dot, perp in *.
    cbn [Vector2.add Vector2.scale Vector2.x Vector2.y] in *.
    set (k := if Flipper.is_left f then 60 else 0). lra.
Qed.

Lemma flipper_contact_effect_witness :
  let f := Flipper.mk (Vector2.mk 270 820) true 0 false in
  let b := flying 300 810 0 100 in
  exists normal b',
    Vector2.normalize
      (Vector2.sub (Ball.position b) (nearest_on_segment f b)) = Some normal
    /\ Flipper.collide f b = Some (true, b')
    /\ Vector2.length
         (Vector2.sub (Ball.position b') (nearest_on_segment f b))
       = gap f b + 4.
Proof.
  intros f b.
  assert (Hc : nearest_on_segment f b = Vector2.mk 300 820).
  { unfold nearest_on_segment, projection, heading, f, b, flying.
    cbn [Flipper.pivot Flipper.angle Flipper.is_left Ball.position].
    rewrite cos_0, sin_0.
    assert (Hd : Vector2.dot
                   (Vector2.sub (Vector2.mk 300 810) (Vector2.mk 270 820))
                   (Vector2.mk 1 0) = 30)
      by (unfold Vector2.dot; cbn; lra).
    rewrite Hd. unfold FLIPPER_LENGTH.
    rewrite Rmin_right by lra. rewrite Rmax_right by lra.
    apply vec_eq; cbn; lra. }
  assert (Hne : Ball.position b <> nearest_on_segment f b).
  { rewrite Hc. unfold b, flying; cbn. intros H. injection H as H. lra. }
  assert (Hg : gap f b <= BALL_RADIUS + FLIPPER_WIDTH / 2).
  { unfold gap. rewrite Hc.
    pose proof (length_sqr (Vector2.sub (Ball.position b)
                                        (Vector2.mk 300 820))) as Hs.
    pose proof (length_nonneg (Vector2.sub (Ball.position b)
                                           (Vector2.mk 300 820))) as Hp.
    set (d := Vector2.length _) in *.
    unfold Vector2.dot, b, flying in Hs. cbn in Hs.
    unfold BALL_RADIUS, FLIPPER_WIDTH. nra. }
  destruct (flipper_contact_effect f b Hne Hg)
    as (normal & b' & Hn & Hr & _ & Hlen & _).
  exists normal, b'. repeat split; assumption.
Defined.

(** ** Free flight *)

Lemma low_bumper_far bumper b :
  Vector2.y (Bumper.position bumper) <= 560 ->
  600 < Vector2.y (Ball.position b) ->
  BUMPER_RADIUS + BALL_RADIUS < distance_to bumper b.
Proof.
  intros Hlow Hy.
  pose proof (length_ge_components
                (Vector2.sub (Ball.position b) (Bumper.position bumper)))
    as [_ Hc].
  fold (distance_to bumper b) in Hc. cbn [Vector2.sub Vector2.y] in Hc.
  pose proof (Rle_abs (Vector2.y (Ball.position b)
                       - Vector2.y (Bumper.position bumper))).
  unfold BUMPER_RADIUS, BALL_RADIUS. lra.
Qed.

Lemma bumper_loop_out_of_range l b g :
  ball g = Some b ->
  Forall (fun bumper => BUMPER_RADIUS + BALL_RADIUS < distance_to bumper b) l ->
  for_each l bumper_step g = Ok tt g.
Proof.
  intros Hb Hl. induction Hl as [|bumper l Hfar _ IH]; cbn.
  - reflexivity.
  - unfold bind at 1. unfold bumper_step at 1. unfold bind, call_collide.
    rewrite Hb, (bumper_out_of_range bumper b Hfar).
    rewrite (with_ball_same g b Hb). exact IH.
Qed.

(** X7. A tick in which the moved ball crosses no wall, is out of reach of
    both flippers (as just actuated) and of every bumper, and is not past
    the drain line, changes the ball by the integration step only: the
    update returns normally, the score is unchanged and nothing else moves
    but the flippers. *)
Theorem free_flight :
  forall (g : Game.t) (b : Ball.t) (keys : Key -> bool) (dt : R),
    ball g = Some b ->
    let l' := Flipper.update
                (Flipper.toggle (left_flipper g) (keys K_LEFT || keys K_a)) dt in
    let r' := Flipper.update
                (Flipper.toggle (right_flipper g) (keys K_RIGHT || keys K_d)) dt in
    let b' := Ball.integrate b dt in
    no_wall_crossed b' ->
    BALL_RADIUS + FLIPPER_WIDTH / 2 < gap l' b' ->
    BALL_RADIUS + FLIPPER_WIDTH / 2 < gap r' b' ->
    Forall (fun bumper => BUMPER_RADIUS + BALL_RADIUS < distance_to bumper b')
           (bumpers g) ->
    Vector2.y (Ball.position b') - BALL_RADIUS <= IZR HEIGHT + 40 ->
    update keys dt g
    = Ok tt (Game.mk l' r' (bumpers g) (Some b') (score g) (constructed g)).
Proof.
  intros g b keys dt Hb l' r' b' Hw Hl Hr Hbs Hd.
  rewrite (update_eval keys dt g b Hb). fold l' r'.
  unfold Ball.update. fold b'. rewrite (handle_walls_clear b' Hw).
  set (g1 := with_ball (Some b') (with_flippers l' r' g)).
  change (Game.mk l' r' (bumpers g) (Some b') (score g) (constructed g))
    with g1.
  assert (Hb1 : ball g1 = Some b') by reflexivity.
  unfold bind, _handle_collisions. rewrite Hb1. unfold bind.
  rewrite (flipper_pass_eval g1 b' Hb1).
  change (left_flipper g1) with l'. change (right_flipper g1) with r'.
  rewrite (proj1 (flipper_collide_far l' b') Hl).
  rewrite (proj1 (flipper_collide_far r' b') Hr).
  rewrite (with_ball_same g1 b' Hb1).
  unfold bumper_pass. change (bumpers g1) with (bumpers g).
  rewrite (bumper_loop_out_of_range (bumpers g) b' g1 Hb1 Hbs).
  unfold drain. rewrite Hb1.
  apply Rgtb_false in Hd. rewrite Hd. reflexivity.
Qed.

Lemma free_flight_witness :
  update no_keys (90 / 600) (in_flight (flying 730 920 (-100) (-720)))
  = Ok tt (in_flight (flying 715 (3329 / 4) (-100) (-585))).
Proof.
  assert (Hi : Ball.integrate (flying 730 920 (-100) (-720)) (90 / 600)
               = flying 715 (3329 / 4) (-100) (-585))
    by (apply integrate_flying; unfold GRAVITY; lra).
  assert (Hc : clear (flying 715 (3329 / 4) (-100) (-585))) by flight.
  destruct Hc as (Hw & Hy & Hx & Hr & Hd).
  pose proof (free_flight (in_flight (flying 730 920 (-100) (-720)))
                (flying 730 920 (-100) (-720)) no_keys (90 / 600) eq_refl)
    as H.
  cbv zeta in H. rewrite Hi in H.
  change (no_keys K_LEFT || no_keys K_a) with false in H.
  change (no_keys K_RIGHT || no_keys K_d) with false in H.
  change (left_flipper (in_flight _))
    with (Flipper.mk (Vector2.mk 270 820) true FLIPPER_REST_ANGLE false) in H.
  change (right_flipper (in_flight _))
    with (Flipper.mk (Vector2.mk 530 820) false FLIPPER_REST_ANGLE false) in H.
  rewrite !rest_flipper_stays in H.
  apply H.
  - exact Hw.
  - apply flipper_collide_far. apply left_flipper_far; [reflexivity | exact Hx].
  - apply flipper_collide_far.
    apply right_flipper_far;
      [reflexivity | exact rest_heading_down | exact Hr].
  - eapply Forall_impl; [|exact bumpers_low].
    intros bumper Hlow. now apply low_bumper_far.
  - exact Hd.
Defined.

(** ** The ball through an update *)

Lemma ball_kept_refl g : ball_kept g g.
Proof. unfold ball_kept. repeat split; eauto. Qed.

Lemma ball_kept_trans g1 g2 g3 :
  ball_kept g1 g2 -> ball_kept g2 g3 -> ball_kept g1 g3.
Proof.
  intros (L1 & R1 & B1 & C1 & K1) (L2 & R2 & B2 & C2 & K2).
  unfold ball_kept. repeat split; try congruence.
  intros b Hb. destruct (K1 b Hb) as (b' & Hb' & I1).
  destruct (K2 b' Hb') as (b'' & Hb'' & I2).
  exists b''. split; [exact Hb'' | congruence].
Qed.

Lemma keeps_ball_ret {A} (a : A) : keeps_ball (ret a).
Proof. intros g. apply ball_kept_refl. Qed.

Lemma keeps_ball_bind {A B} (m : M A) (f : A -> M B) :
  keeps_ball m -> (forall a, keeps_ball (f a)) -> keeps_ball (bind m f).
Proof.
  intros Hm Hf g. unfold bind. specialize (Hm g).
  destruct (m g) as [a g'|e g']; cbn in *.
  - eapply ball_kept_trans; [exact Hm | apply Hf].
  - exact Hm.
Qed.

Lemma keeps_ball_for_each {A} (l : list A) (body : A -> M unit) :
  (forall a, keeps_ball (body a)) -> keeps_ball (for_each l body).
Proof.
  intros Hb. induction l as [|a l IH]; cbn.
  - apply keeps_ball_ret.
  - apply keeps_ball_bind; auto.
Qed.

Lemma flipper_collide_ident f b hit b' :
  Flipper.collide f b = Some (hit, b') -> Ball.ident b' = Ball.ident b.
Proof.
  unfold Flipper.collide, Flipper.respond.
  destruct (Flipper.closest_point f b) as [c|]; [|discriminate].
  destruct (Rleb _ _).
  - destruct (Vector2.normalize _) as [n|]; [|discriminate].
    destruct (Vector2.reflect _ _); [|discriminate].
    intros H. injection H as _ <-. reflexivity.
  - intros H. injection H as _ <-. reflexivity.
Qed.

Lemma bumper_collide_ident bumper b hit b' :
  Bumper.collide bumper b = Some (hit, b') -> Ball.ident b' = Ball.ident b.
Proof.
  unfold Bumper.collide.
  destruct (Rleb _ _).
  - destruct (Vector2.normalize _) as [n|]; [|discriminate].
    destruct (Vector2.reflect _ _); [|discriminate].
    intros H. injection H as _ <-. reflexivity.
  - intros H. injection H as _ <-. reflexivity.
Qed.

Lemma keeps_ball_call_collide c :
  (forall b hit b', c b = Some (hit, b') -> Ball.ident b' = Ball.ident b) ->
  keeps_ball (call_collide c).
Proof.
  intros Hc g. unfold call_collide.
  destruct (ball g) as [b|] eqn:Hb; [|apply ball_kept_refl].
  destruct (c b) as [[hit b']|] eqn:E; [|apply ball_kept_refl].
  cbn. unfold ball_kept. cbn. repeat split.
  intros b0 H0. exists b'. split; [reflexivity|].
  rewrite Hb in H0. injection H0 as <-. eapply Hc; eauto.
Qed.

Lemma keeps_ball_add_score v : keeps_ball (add_score v).
Proof. intros g. unfold ball_kept. cbn. repeat split; eauto. Qed.

Lemma keeps_ball_handle_collisions : keeps_ball _handle_collisions.
Proof.
  intros g. unfold _handle_collisions.
  destruct (ball g) eqn:Hb; [|apply ball_kept_refl].
  apply (keeps_ball_bind flipper_pass (fun _ => bumper_pass)).
  - intros g1. unfold flipper_pass. apply keeps_ball_for_each.
    intros f. apply keeps_ball_bind; [|intros; apply keeps_ball_ret].
    apply keeps_ball_call_collide. apply flipper_collide_ident.
  - intros _ g1. unfold bumper_pass. apply keeps_ball_for_each.
    intros bumper. unfold bumper_step.
    apply keeps_ball_bind.
    + apply keeps_ball_call_collide. apply bumper_collide_ident.
    + intros [|]; [apply keeps_ball_add_score | apply keeps_ball_ret].
Qed.

(** X8. [Game.update] never makes a ball: without one it returns normally
    with no ball and the same score, and it never changes the count of
    balls constructed.  A ball held after a normal return is the ball held
    before, and it is not past the drain line (its top edge is at most 40
    below the window). *)
Theorem update_ball_lifecycle :
  forall (g : Game.t) (keys : Key -> bool) (dt : R),
    (ball g = None ->
     exists g', update keys dt g = Ok tt g'
                /\ ball g' = None /\ score g' = score g)
    /\ constructed (state_of (update keys dt g)) = constructed g
    /\ (forall g' b',
          update keys dt g = Ok tt g' -> ball g' = Some b' ->
          (exists b, ball g = Some b /\ Ball.ident b' = Ball.ident b)
          /\ Vector2.y (Ball.position b') - BALL_RADIUS <= IZR HEIGHT + 40).
Proof.
  intros g keys dt.
  destruct (ball g) as [b|] eqn:Hb.
  - split; [discriminate|].
    rewrite (update_eval keys dt g b Hb).
    set (g1 := with_ball _ _).
    assert (H1 : ball g1 = Some (Ball.update b dt)) by reflexivity.
    assert (C1 : constructed g1 = constructed g) by reflexivity.
    pose proof (keeps_ball_handle_collisions g1) as (_ & _ & _ & C2 & K2).
    destruct (K2 _ H1) as (b2 & Hb2 & I2).
    unfold bind.
    destruct (_handle_collisions g1) as [[] g2|e g2]; cbn in *.
    + unfold drain. rewrite Hb2.
      destruct (Rgtb _ _) eqn:Ed; cbn.
      * split; [congruence|]. intros g' b' H. injection H as <-.
        cbn. discriminate.
      * split; [congruence|]. intros g' b' H Hb'. injection H as <-.
        rewrite Hb2 in Hb'. injection Hb' as <-.
        apply Rgtb_false in Ed. split; [|exact Ed].
        exists b. split; [reflexivity|].
        rewrite I2. unfold Ball.update, Ball._handle_walls, Ball.wall_top,
          Ball.wall_right, Ball.wall_left.
        repeat match goal with
               | |- context [if ?c then _ else _] => destruct c
               end; reflexivity.
    + split; [congruence|]. intros g' b' H. discriminate.
  - split; [|split].
    + intros _. unfold update. cbn [ball with_flippers]. rewrite Hb.
      eexists. split; [reflexivity|]. cbn. split; [exact Hb | reflexivity].
    + unfold update. cbn [ball with_flippers]. rewrite Hb. reflexivity.
    + intros g' b'. unfold update. cbn [ball with_flippers]. rewrite Hb.
      intros H Hb'. injection H as <-. cbn in Hb'. congruence.
Qed.

(** ** A batch of events *)

Lemma launch_ball_active u g :
  exists g', launch_ball u g = Ok tt g'
             /\ ball_active g' = true
             /\ left_flipper g' = left_flipper g
             /\ right_flipper g' = right_flipper g
             /\ bumpers g' = bumpers g
             /\ score g' = score g
             /\ constructed g' = S (constructed g).
Proof. eexists. split; [reflexivity|]. cbn. repeat split. Qed.

Lemma handle_events_outcome :
  forall (events : list (Event * R)) (running : bool) (g : Game.t),
    exists g',
      handle_events events running g
      = Ok (running && negb (existsb (fun eu => is_quit (fst eu)) events)) g'
      /\ left_flipper g' = left_flipper g
      /\ right_flipper g' = right_flipper g
      /\ bumpers g' = bumpers g
      /\ score g' = score g
      /\ ball_active g'
         = ball_active g || existsb (fun eu => is_launch (fst eu)) events
      /\ (constructed g <= constructed g' <= S (constructed g))%nat
      /\ (ball_active g = true -> g' = g).
Proof.
  assert (Hsame : forall u event running g,
             ball_active g = true \/ is_launch event = false ->
             handle_event u event running g
             = Ok (running && negb (is_quit event)) g).
  { intros u event running g H. destruct event as [|key|]; cbn.
    - destruct running; reflexivity.
    - assert (E : is_space key && negb (ball_active g) = false).
      { destruct H as [H|H]; [rewrite H; apply andb_false_r|].
        cbn in H. now rewrite H. }
      rewrite E. destruct running, (is_quit_key key); reflexivity.
    - destruct running; reflexivity. }
  assert (Hbool : forall r q e, (r && negb q) && negb e = r && negb (q || e))
    by (intros [] [] []; reflexivity).
  induction events as [|[event u] rest IH]; intros running g.
  - exists g. cbn. rewrite andb_true_r, orb_false_r.
    repeat split; auto.
  - cbn [handle_events existsb fst]. unfold bind.
    destruct (ball_active g) eqn:Ha.
    + rewrite (Hsame u event running g (or_introl Ha)).
      destruct (IH (running && negb (is_quit event)) g)
        as (g' & Hr & HL & HR & HB & HS & HA & HC & HE).
      exists g'. rewrite Hr, Hbool. rewrite Ha in *. cbn [orb] in *.
      repeat split; auto; lia.
    + destruct (is_launch event) eqn:Hl.
      * destruct event as [|key|]; try discriminate. cbn in Hl.
        cbn [handle_event]. rewrite Hl, Ha. cbn [negb andb].
        unfold bind.
        destruct (launch_ball_active u g)
          as (g1 & H1 & A1 & L1 & R1 & B1 & S1 & C1).
        rewrite H1. unfold ret.
        destruct (IH (if is_quit_key key then false else running) g1)
          as (g' & Hr & HL & HR & HB & HS & HA & HC & HE).
        specialize (HE A1). subst g'.
        exists g1. rewrite Hr. split.
        { f_equal. cbn [is_quit].
          destruct running, (is_quit_key key),
            (existsb (fun eu => is_quit (fst eu)) rest); reflexivity. }
        rewrite A1. cbn. repeat split; auto; try lia; try discriminate.
      * rewrite (Hsame u event running g (or_intror Hl)).
        destruct (IH (running && negb (is_quit event)) g)
          as (g' & Hr & HL & HR & HB & HS & HA & HC & HE).
        exists g'. rewrite Hr, Hbool. rewrite Ha in *. cbn [orb] in *.
        repeat split; auto; lia.
Qed.

(** X9. Serving the events of a frame never raises.  The loop goes on
    exactly when it was going on and no QUIT, ESC or Q is in the batch
    (nothing in it turns [running] back on); the flippers, the bumpers and
    the score are untouched; a ball is active afterwards exactly when one
    was active or the batch has a SPACE press, and at most one ball is
    constructed however many SPACE presses there are. *)
Theorem handle_events_total :
  forall (events : list (Event * R)) (running : bool) (g : Game.t),
    exists g',
      handle_events events running g
      = Ok (running && negb (existsb (fun eu => is_quit (fst eu)) events)) g'
      /\ left_flipper g' = left_flipper g
      /\ right_flipper g' = right_flipper g
      /\ bumpers g' = bumpers g
      /\ score g' = score g
      /\ ball_active g'
         = ball_active g || existsb (fun eu => is_launch (fst eu)) events
      /\ (constructed g <= constructed g' <= S (constructed g))%nat
      /\ (ball_active g = true -> g' = g).
Proof. exact handle_events_outcome. Qed.

(** ** The table through a session *)

Lemma flipper_update_keeps f dt :
  Flipper.pivot (Flipper.update f dt) = Flipper.pivot f
  /\ Flipper.is_left (Flipper.update f dt) = Flipper.is_left f
  /\ Flipper.activated (Flipper.update f dt) = Flipper.activated f.
Proof.
  unfold Flipper.update.
  destruct (isclose _ _ _); [cbn; auto|].
  destruct (_ || _); cbn; auto.
Qed.

Lemma update_keeps_table keys dt g :
  0 <= dt -> table_kept g -> table_kept (state_of (update keys dt g)).
Proof.
  intros Hdt (HB & PL & SL & PR & SR & AL & AR & HS).
  assert (Hsound : sound_table g)
    by (unfold sound_table; rewrite HB; apply created_bumpers_sound).
  destruct (monotone_update keys dt g Hsound) as [Hscore Hbump].
  set (l' := Flipper.update
               (Flipper.toggle (left_flipper g) (keys K_LEFT || keys K_a)) dt).
  set (r' := Flipper.update
               (Flipper.toggle (right_flipper g) (keys K_RIGHT || keys K_d)) dt).
  assert (Hfl : left_flipper (state_of (update keys dt g)) = l'
                /\ right_flipper (state_of (update keys dt g)) = r').
  { destruct (ball g) as [b|] eqn:Hb.
    - rewrite (update_eval keys dt g b Hb). fold l' r'.
      set (g1 := with_ball _ _).
      pose proof (keeps_ball_handle_collisions g1) as (L2 & R2 & _).
      unfold bind.
      destruct (_handle_collisions g1) as [[] g2|e g2]; cbn in *.
      + unfold drain. destruct (ball g2); [|cbn; now rewrite L2, R2].
        destruct (Rgtb _ _); cbn; now rewrite L2, R2.
      + now rewrite L2, R2.
    - unfold update. cbn [ball with_flippers]. rewrite Hb. cbn. auto. }
  destruct Hfl as [HL HR].
  destruct (flipper_update_keeps
              (Flipper.toggle (left_flipper g) (keys K_LEFT || keys K_a)) dt)
    as (P1 & S1 & _).
  destruct (flipper_update_keeps
              (Flipper.toggle (right_flipper g) (keys K_RIGHT || keys K_d)) dt)
    as (P2 & S2 & _).
  fold l' in P1, S1. fold r' in P2, S2.
  cbn [Flipper.toggle Flipper.pivot Flipper.is_left] in P1, S1, P2, S2.
  unfold table_kept. rewrite HL, HR, Hbump, P1, S1, P2, S2.
  split; [exact HB|]. split; [exact PL|]. split; [exact SL|].
  split; [exact PR|]. split; [exact SR|].
  split; [apply (update_in_range _ dt Hdt); exact AL|].
  split; [apply (update_in_range _ dt Hdt); exact AR|].
  lia.
Qed.

Lemma frame_keeps_table dt events keys running g :
  0 <= dt -> table_kept g ->
  table_kept (state_of (frame dt events keys running g)).
Proof.
  intros Hdt Hg. unfold frame, bind.
  destruct (handle_events_outcome events running g)
    as (g1 & -> & L1 & R1 & B1 & S1 & _).
  assert (H1 : table_kept g1).
  { unfold table_kept in *. rewrite L1, R1, B1, S1. exact Hg. }
  pose proof (update_keeps_table keys dt g1 Hdt H1) as H2.
  destruct (update keys dt g1) as [[] g2|e g2]; exact H2.
Qed.

Lemma init_table_kept : table_kept init.
Proof.
  unfold table_kept, in_range. cbn.
  pose proof rest_lt_active. repeat split; try reflexivity; try lra; lia.
Qed.

Lemma play_keeps_table frames :
  forall running g,
    admissible frames -> table_kept g ->
    table_kept (state_of (play frames running g)).
Proof.
  induction frames as [|fr rest IH]; intros running g Ha Hg; cbn [play].
  - exact Hg.
  - destruct running; [|exact Hg].
    inversion Ha as [|? ? [Hdt _] Hrest]; subst.
    pose proof (frame_keeps_table (frame_dt fr) (frame_events fr)
                  (frame_keys fr) true g Hdt Hg) as H1.
    unfold bind.
    destruct (frame _ _ _ _ g) as [r g1|e g1]; cbn in *.
    + now apply IH.
    + exact H1.
Qed.

(** X10. Through any session fed with non-negative time steps, up to and
    including a frame that ends in an exception, the table stays as
    [__init__] built it: the same bumpers, the flippers on their pivots
    and sides with angles between the rest and the activated angle, and a
    score that is never negative. *)
Theorem session_keeps_table :
  forall (frames : list Frame) (running : bool),
    admissible frames ->
    table_kept (state_of (play frames running init)).
Proof.
  intros frames running Ha.
  apply play_keeps_table; [exact Ha | exact init_table_kept].
Qed.

Lemma session_keeps_table_witness :
  table_kept
    (state_of
       (play [mkFrame (1 / 60) [(KEYDOWN K_SPACE, 50)] no_keys;
              mkFrame (1 / 50) [] right_held]
             true init)).
Proof.
  apply session_keeps_table.
  apply Forall_cons;
    [split; [cbn; lra | apply Forall_cons; [cbn; lra | apply Forall_nil]]|].
  apply Forall_cons; [split; [cbn; lra | apply Forall_nil]|].
  apply Forall_nil.
Defined.

Lemma flipper_pass_keeps_score_aux g :
  ball g <> None ->
  score (state_of (flipper_pass g)) = score g
  /\ bumpers (state_of (flipper_pass g)) = bumpers g
  /\ exists b, ball (state_of (flipper_pass g)) = Some b.
Proof.
  intros Hb. destruct (ball g) as [b|] eqn:E; [|contradiction].
  rewrite (flipper_pass_eval g b E).
  destruct (Flipper.collide (left_flipper g) b) as [[h1 b1]|]; cbn.
  - destruct (Flipper.collide (right_flipper g) b1) as [[h2 b2]|]; cbn; eauto.
  - eauto.
Qed.

(** ** One bumper at a time *)

Lemma length_triangle a b c :
  Vector2.length (Vector2.sub a c)
  <= Vector2.length (Vector2.sub a b) + Vector2.length (Vector2.sub b c).
Proof.
  pose proof (length_sqr (Vector2.sub a c)) as Hw.
  pose proof (length_sqr (Vector2.sub a b)) as Hu.
  pose proof (length_sqr (Vector2.sub b c)) as Hv.
  pose proof (length_nonneg (Vector2.sub a c)) as Pw.
  pose proof (length_nonneg (Vector2.sub a b)) as Pu.
  pose proof (length_nonneg (Vector2.sub b c)) as Pv.
  set (W := Vector2.length (Vector2.sub a c)) in *.
  set (U := Vector2.length (Vector2.sub a b)) in *.
  set (V := Vector2.length (Vector2.sub b c)) in *.
  unfold Vector2.dot in *. cbn [Vector2.sub Vector2.x Vector2.y] in *.
  set (ux := Vector2.x a - Vector2.x b) in *.
  set (uy := Vector2.y a - Vector2.y b) in *.
  set (vx := Vector2.x b - Vector2.x c) in *.
  set (vy := Vector2.y b - Vector2.y c) in *.
  replace (Vector2.x a - Vector2.x c) with (ux + vx) in Hw
    by (unfold ux, vx; ring).
  replace (Vector2.y a - Vector2.y c) with (uy + vy) in Hw
    by (unfold uy, vy; ring).
  assert (Hcs : ux * vx + uy * vy <= U * V).
  { destruct (Rle_dec (ux * vx + uy * vy) 0) as [Hneg|Hpos].
    - assert (0 <= U * V) by (apply Rmult_le_pos; lra). lra.
    - apply Rnot_lt_le. intros Hlt.
      assert (Hsq : (U * V) * (U * V)
                    < (ux * vx + uy * vy) * (ux * vx + uy * vy)).
      { assert (0 <= U * V) by (apply Rmult_le_pos; lra).
        apply Rmult_le_0_lt_compat; lra. }
      assert (Hdet : 0 <= (ux * vy - uy * vx) * (ux * vy - uy * vx))
        by (apply Rle_0_sqr).
      assert (Hprod : (U * V) * (U * V)
                      = (ux * ux + uy * uy) * (vx * vx + vy * vy)).
      { rewrite <- Hu, <- Hv. ring. }
      nra. }
  apply Rnot_lt_le. intros Hlt.
  assert (Hsq : (U + V) * (U + V) < W * W)
    by (apply Rmult_le_0_lt_compat; lra).
  nra.
Qed.

Lemma bumper_loop_one_hit l :
  spread l ->
  forall g b,
    ball g = Some b ->
    let g' := state_of (for_each l bumper_step g) in
    score g' = score g
    \/ exists bumper, In bumper l
                      /\ score g' = (score g + Bumper.value bumper)%Z.
Proof.
  induction l as [|a rest IH]; intros Hs g b Hb; cbv zeta.
  - left. reflexivity.
  - destruct Hs as [Hfar Hs].
    assert (Hstep : bumper_step a g
                    = match Bumper.collide a b with
                      | Some (true, b') =>
                          Ok tt (with_score (score g + Bumper.value a)
                                   (with_ball (Some b') g))
                      | Some (false, b') => Ok tt (with_ball (Some b') g)
                      | None => Raise ValueError g
                      end).
    { unfold bumper_step, bind, call_collide. rewrite Hb.
      destruct (Bumper.collide a b) as [[[|] b']|]; reflexivity. }
    cbn [for_each]. unfold bind. rewrite Hstep. clear Hstep.
    destruct (Bumper.collide a b) as [[[|] b']|] eqn:Hc.
    + (* contact with [a]: every later bumper is out of range *)
      set (g1 := with_score _ _).
      assert (Hb1 : ball g1 = Some b') by reflexivity.
      assert (Hd : distance_to a b' = BUMPER_RADIUS + BALL_RADIUS + 2).
      { assert (Hne : Ball.position b <> Bumper.position a).
        { intros E. apply (proj1 (bumper_collide_centre a b)) in E.
          congruence. }
        assert (Hin : distance_to a b <= BUMPER_RADIUS + BALL_RADIUS).
        { destruct (Rle_dec (distance_to a b) (BUMPER_RADIUS + BALL_RADIUS))
            as [H|H]; [exact H|].
          assert (Hf : BUMPER_RADIUS + BALL_RADIUS < distance_to a b) by lra.
          apply bumper_out_of_range in Hf. congruence. }
        destruct (bumper_collide_near a b Hne Hin) as (n & _ & Hu & Hr).
        rewrite Hr in Hc. injection Hc as <-.
        unfold distance_to. cbn [Ball.position]. rewrite add_sub_cancel.
        apply length_scale_unit; [exact Hu|].
        unfold BUMPER_RADIUS, BALL_RADIUS. lra. }
      assert (Hout : Forall (fun c => BUMPER_RADIUS + BALL_RADIUS
                                      < distance_to c b') rest).
      { eapply Forall_impl; [|exact Hfar].
        intros c Hc'. cbv beta in Hc'.
        pose proof (length_triangle (Bumper.position c) (Ball.position b')
                      (Bumper.position a)) as Ht.
        assert (Hsym : Vector2.length
                         (Vector2.sub (Bumper.position c) (Ball.position b'))
                       = distance_to c b').
        { unfold distance_to, Vector2.length. f_equal.
          unfold Vector2.dot. cbn. ring. }
        rewrite Hsym in Ht. fold (distance_to a b') in Ht. lra. }
      rewrite (bumper_loop_out_of_range rest b' g1 Hb1 Hout).
      right. exists a. split; [now left | reflexivity].
    + (* no contact with [a] *)
      assert (Hsame : b' = b).
      { unfold Bumper.collide in Hc. destruct (Rleb _ _).
        - destruct (Vector2.normalize _); [|discriminate].
          destruct (Vector2.reflect _ _); discriminate.
        - now injection Hc as <-. }
      subst b'. rewrite (with_ball_same g b Hb).
      destruct (IH Hs g b Hb) as [H|(c & Hin & H)].
      * left. exact H.
      * right. exists c. split; [now right | exact H].
    + left. reflexivity.
Qed.

Lemma apart_by_x x1 y1 x2 y2 :
  100 <= x2 - x1 \/ 100 <= x1 - x2 ->
  2 * (BUMPER_RADIUS + BALL_RADIUS) + 2
  < Vector2.length (Vector2.sub (Vector2.mk x2 y2) (Vector2.mk x1 y1)).
Proof.
  intros H.
  pose proof (length_ge_components
                (Vector2.sub (Vector2.mk x2 y2) (Vector2.mk x1 y1)))
    as [Hc _].
  cbn [Vector2.sub Vector2.x Vector2.y] in Hc.
  pose proof (Rle_abs (x2 - x1)). pose proof (Rle_abs (- (x2 - x1))) as Hn.
  rewrite Rabs_Ropp in Hn.
  unfold BUMPER_RADIUS, BALL_RADIUS. destruct H; lra.
Qed.

Lemma apart_by_y x1 y1 x2 y2 :
  100 <= y2 - y1 \/ 100 <= y1 - y2 ->
  2 * (BUMPER_RADIUS + BALL_RADIUS) + 2
  < Vector2.length (Vector2.sub (Vector2.mk x2 y2) (Vector2.mk x1 y1)).
Proof.
  intros H.
  pose proof (length_ge_components
                (Vector2.sub (Vector2.mk x2 y2) (Vector2.mk x1 y1)))
    as [_ Hc].
  cbn [Vector2.sub Vector2.x Vector2.y] in Hc.
  pose proof (Rle_abs (y2 - y1)). pose proof (Rle_abs (- (y2 - y1))) as Hn.
  rewrite Rabs_Ropp in Hn.
  unfold BUMPER_RADIUS, BALL_RADIUS. destruct H; lra.
Qed.

Lemma created_bumpers_spread : spread _create_bumpers.
Proof.
  unfold _create_bumpers. cbn [flat_map map app spread].
  change (IZR (WIDTH / 2)) with 400.
  repeat match goal with
         | |- _ /\ _ => split
         | |- Forall _ [] => apply Forall_nil
         | |- Forall _ (_ :: _) => apply Forall_cons
         | |- True => exact I
         | |- _ < Vector2.length _ =>
             cbn [Bumper.position];
             first [ apply apart_by_x; lra | apply apart_by_y; lra ]
         end.
Qed.

Lemma created_bumper_values bumper :
  In bumper _create_bumpers ->
  Bumper.value bumper = 150%Z \/ Bumper.value bumper = 250%Z.
Proof.
  unfold _create_bumpers. cbn [flat_map map app In].
  intros H.
  repeat (destruct H as [<-|H]; [cbn; auto|]). contradiction.
Qed.

(** X11. On the table as built, a ball touches at most one bumper in a
    tick: one [update] leaves the score as it was or raises it by the
    value of a single bumper, 150 or 250. *)
Theorem one_bumper_per_update :
  forall (g : Game.t) (keys : Key -> bool) (dt : R),
    bumpers g = _create_bumpers ->
    let s' := score (state_of (update keys dt g)) in
    s' = score g \/ s' = (score g + 150)%Z \/ s' = (score g + 250)%Z.
Proof.
  intros g keys dt HB. cbv zeta.
  destruct (ball g) as [b|] eqn:Hb.
  - rewrite (update_eval keys dt g b Hb).
    set (g1 := with_ball _ _).
    assert (S1 : score g1 = score g) by reflexivity.
    assert (B1 : bumpers g1 = _create_bumpers) by exact HB.
    assert (Hb1 : ball g1 = Some (Ball.update b dt)) by reflexivity.
    unfold bind, _handle_collisions. rewrite Hb1. unfold bind.
    pose proof (flipper_pass_keeps_score_aux g1) as HF.
    destruct (flipper_pass g1) as [[] g2|e g2] eqn:Hfp; cbn in HF.
    + destruct HF as (S2 & B2 & (b2 & Hb2)); [congruence|].
      unfold bumper_pass.
      replace (bumpers g2) with _create_bumpers by congruence.
      pose proof (bumper_loop_one_hit _ created_bumpers_spread g2 b2 Hb2)
        as Hone. cbv zeta in Hone.
      assert (Hdrain : forall g3, score (state_of (drain g3)) = score g3).
      { intros g3. unfold drain. destruct (ball g3); [|reflexivity].
        destruct (Rgtb _ _); reflexivity. }
      assert (Hfin : score
                       (state_of
                          match for_each _create_bumpers bumper_step g2 with
                          | Ok _ g' => drain g'
                          | Raise e g' => Raise e g'
                          end)
                     = score (state_of
                                (for_each _create_bumpers bumper_step g2))).
      { destruct (for_each _create_bumpers bumper_step g2) as [[] g3|e g3];
          [apply Hdrain | reflexivity]. }
      rewrite Hfin.
      assert (Hs2 : score g2 = score g) by congruence.
      destruct Hone as [H|(c & Hin & H)]; [left; congruence|].
      right. rewrite H, Hs2.
      destruct (created_bumper_values c Hin) as [-> | ->]; auto.
    + destruct HF as (S2 & _); [congruence|]. cbn. left. congruence.
  - unfold update. cbn [ball with_flippers]. rewrite Hb. left. reflexivity.
Qed.

Lemma one_bumper_per_update_witness :
  let s' := score (state_of (update no_keys (1 / 60) init)) in
  s' = score init \/ s' = (score init + 150)%Z \/ s' = (score init + 250)%Z.
Proof.
  exact (one_bumper_per_update init no_keys (1 / 60) eq_refl).
Defined.

(** ** Speeds and step sizes *)

(** X12. Wall handling never makes the ball faster: neither velocity
    component grows in magnitude, and [Ball.update] leaves the horizontal
    speed as it was or smaller. *)
Theorem walls_never_speed_up :
  forall (b : Ball.t) (dt : R),
    Rabs (Vector2.x (Ball.velocity (Ball._handle_walls b)))
    <= Rabs (Vector2.x (Ball.velocity b))
    /\ Rabs (Vector2.y (Ball.velocity (Ball._handle_walls b)))
       <= Rabs (Vector2.y (Ball.velocity b))
    /\ Rabs (Vector2.x (Ball.velocity (Ball.update b dt)))
       <= Rabs (Vector2.x (Ball.velocity b)).
Proof.
  assert (Hdamp : forall v, Rabs (Rabs v * 0.92) <= Rabs v
                            /\ Rabs (- Rabs v * 0.92) <= Rabs v).
  { intros v. pose proof (Rabs_pos v) as Hp. split.
    - rewrite Rabs_pos_eq by lra. lra.
    - rewrite Rabs_left1 by lra. lra. }
  assert (Hw : forall b,
             Rabs (Vector2.x (Ball.velocity (Ball._handle_walls b)))
             <= Rabs (Vector2.x (Ball.velocity b))
             /\ Rabs (Vector2.y (Ball.velocity (Ball._handle_walls b)))
                <= Rabs (Vector2.y (Ball.velocity b))).
  { intros [i [px py] [vx vy]].
    destruct (Hdamp vx) as [Hx1 Hx2]. destruct (Hdamp vy) as [Hy1 _].
    destruct (Hdamp (Rabs vx * 0.92)) as [_ Hxx].
    pose proof (Rabs_pos vx). pose proof (Rabs_pos vy).
    walls.
    destruct (Rltb (px - 12) 20); walls;
      (destruct (Rgtb _ (800 - 20)); walls);
      (destruct (Rltb (py - 12) 20); walls);
      split; lra. }
  intros b dt. destruct (Hw b) as [Hx Hy].
  split; [exact Hx|]. split; [exact Hy|].
  unfold Ball.update. destruct (Hw (Ball.integrate b dt)) as [Hx' _].
  exact Hx'.
Qed.

(** X13. Splitting a tick in two changes nothing about the velocity or
    the horizontal position the integration step gives, but the single
    long step puts the ball lower (larger y) by [GRAVITY * d1 * d2]. *)
Theorem integrate_split :
  forall (b : Ball.t) (d1 d2 : R),
    let two := Ball.integrate (Ball.integrate b d1) d2 in
    let one := Ball.integrate b (d1 + d2) in
    Ball.velocity one = Ball.velocity two
    /\ Vector2.x (Ball.position one) = Vector2.x (Ball.position two)
    /\ Vector2.y (Ball.position one)
       = Vector2.y (Ball.position two) + GRAVITY * d1 * d2.
Proof.
  intros [i [px py] [vx vy]] d1 d2. cbv zeta. unfold Ball.integrate. cbn.
  repeat split.
  - apply vec_eq; cbn; ring.
  - ring.
  - ring.
Qed.

Lemma isclose_near a tg :
  in_range a -> in_range tg ->
  isclose a tg 1e-3 = true -> Rabs (tg - a) <= 1e-3.
Proof.
  unfold in_range, FLIPPER_REST_ANGLE, FLIPPER_ANGLE, radians.
  intros Ha Ht. pose proof PI_gt_3 as Hpi3. pose proof PI_4 as Hpi4.
  assert (Hsmall : forall v, -22 * PI / 180 <= v <= 25 * PI / 180 ->
                             Rabs (1e-9 * v) <= 1e-3).
  { intros v Hv. apply Rabs_le. lra. }
  unfold isclose. destruct (Req_dec_T a tg) as [->|_].
  - intros _. replace (tg - tg) with 0 by ring. rewrite Rabs_R0. lra.
  - intros Hc. apply orb_true_iff in Hc as [Hc|Hc];
      [apply orb_true_iff in Hc as [Hc|Hc]|]; apply Rleb_true in Hc.
    + pose proof (Hsmall tg Ht). lra.
    + pose proof (Hsmall a Ha). lra.
    + exact Hc.
Qed.

(** X14. In one update a flipper between its two end angles turns by at
    most [FLIPPER_SPEED * dt], or by at most 1e-3 when it snaps onto the
    target. *)
Theorem update_step_bounded :
  forall (f : Flipper.t) (dt : R),
    0 <= dt ->
    in_range (Flipper.angle f) ->
    Rabs (Flipper.angle (Flipper.update f dt) - Flipper.angle f)
    <= Rmax (FLIPPER_SPEED * dt) 1e-3.
Proof.
  intros f dt Hdt Hin.
  pose proof speed_pos as Hs.
  assert (Hstep : 0 <= FLIPPER_SPEED * dt) by (apply Rmult_le_pos; lra).
  pose proof (Rmax_l (FLIPPER_SPEED * dt) 1e-3) as Hl.
  pose proof (Rmax_r (FLIPPER_SPEED * dt) 1e-3) as Hr.
  pose proof (target_in_range f) as Ht.
  unfold Flipper.update.
  set (tg := Flipper.target_of f) in *. set (a := Flipper.angle f) in *.
  destruct (isclose a tg 1e-3) eqn:Ec.
  - unfold Flipper.with_angle. cbn [Flipper.angle].
    pose proof (isclose_near a tg Hin Ht Ec). lra.
  - destruct (Rgtb tg a) eqn:Ed;
      [apply Rgtb_true in Ed | apply Rgtb_false in Ed].
    + assert (E1 : Rgtb 1 0 = true) by (apply Rgtb_true; lra).
      assert (E2 : Rltb 1 0 = false) by (apply Rltb_false; lra).
      rewrite E1, E2. cbn [andb orb].
      destruct (Rgtb (a + 1 * FLIPPER_SPEED * dt) tg) eqn:Eo;
        [apply Rgtb_true in Eo | apply Rgtb_false in Eo];
        unfold Flipper.with_angle; cbn [orb andb Flipper.angle];
        rewrite Rabs_pos_eq by lra; lra.
    + assert (E1 : Rgtb (-1) 0 = false) by (apply Rgtb_false; lra).
      assert (E2 : Rltb (-1) 0 = true) by (apply Rltb_true; lra).
      rewrite E1, E2. cbn [andb orb].
      destruct (Rltb (a + -1 * FLIPPER_SPEED * dt) tg) eqn:Eo;
        [apply Rltb_true in Eo | apply Rltb_false in Eo];
        unfold Flipper.with_angle; cbn [orb andb Flipper.angle];
        rewrite Rabs_left1 by lra; lra.
Qed.

Lemma update_step_bounded_witness :
  Rabs (Flipper.angle (Flipper.update (right_flipper init) (1 / 60))
        - Flipper.angle (right_flipper init))
  <= Rmax (FLIPPER_SPEED * (1 / 60)) 1e-3.
Proof.
  apply update_step_bounded.
  - lra.
  - unfold in_range; cbn. generalize rest_lt_active; lra.
Defined.
